(** * A shallow embedding of the funding-rate arbitrage core

    The first part embeds the C++ sources, one module per class:

    - [ExecutionTypes] : the enumerations, their printers and parsers and
      the order records of [src/market/types/execution_types.h];
    - [BinanceApi]     : the retry loop, the status-code extraction and the
      symbol check of [src/market/api/binance_api.cpp];
    - [OrderManager]   : [OrderManager::placeOrder], [cancelOrder],
      [getOrderStatus], [waitForOrderFill] and [updateOrderCache] (the
      [order_manager.cpp] part of [src/trading/risk/risk_types.h]);
    - [RiskManager]    : [RiskManager::checkNewPosition] and what it calls
      (the [risk_manager.cpp] part of [src/monitor/alerts/alert_types.h]);
    - [Engine]         : [FundingArbitrageEngine::checkTradingWindow],
      [balancePositions], [closePositions] and [updateDrawdown]
      ([src/unnamed/part_007]).

    The second part states and proves the properties.

    Conventions.  A C++ [double] is a primitive binary64 [float], so that
    every arithmetic step and comparison is the one the program performs.
    An [int] or a clock reading is a [Z].  A [std::map<std::string, V>] is
    a [gmap string V].  A function that may throw returns a [result]; the
    exception object is kept, so that "rethrown unchanged" can be stated.
    What a function asks of the exchange is answered by an oracle that is
    a parameter of the model.  Log output is not part of the model. *)

From Stdlib Require Import ZArith String Ascii List Bool Lia.
From Stdlib Require Import Floats.PrimFloat Floats.FloatOps Floats.SpecFloat.
From Stdlib Require Import Floats.FloatAxioms.
From Stdlib Require Import Numbers.Cyclic.Int63.Uint63.
From stdpp Require Import base option gmap strings list sorting.
Import ListNotations.

Set Warnings "-inexact-float".
Set Default Proof Using "Type".

Local Open Scope string_scope.
Local Open Scope list_scope.
Local Open Scope Z_scope.

(** ** Exceptions and results *)

(** The two exception classes the sources throw.  [what] is the message. *)
Inductive exn : Type :=
  | InvalidArgument (msg : string)
  | RuntimeError (msg : string).

Definition what (e : exn) : string :=
  match e with
  | InvalidArgument m => m
  | RuntimeError m => m
  end.

Definition is_invalid_argument (e : exn) : bool :=
  match e with
  | InvalidArgument _ => true
  | RuntimeError _ => false
  end.

(** A computation that returns an [A] or throws. *)
Definition result (A : Type) : Type := exn + A.

Definition ok {A} (a : A) : result A := inr a.
Definition throw {A} (e : exn) : result A := inl e.

Definition rbind {A B} (m : result A) (k : A -> result B) : result B :=
  match m with
  | inl e => inl e
  | inr a => k a
  end.

Notation "'do' x <- m ; k" := (rbind m (fun x => k))
  (at level 10, x name, m at level 100, k at level 200, only parsing).
Notation "'do_' m ; k" := (rbind m (fun _ => k))
  (at level 10, m at level 100, k at level 200, only parsing).

Definition is_ok {A} (r : result A) : bool :=
  match r with inr _ => true | inl _ => false end.

(** ** [execution_types.h] *)

Module ExecutionTypes.

Inductive OrderSide := BUY | SELL.

Inductive OrderType :=
  | MARKET | LIMIT | POST_ONLY | STOP_MARKET
  | STOP_LIMIT | TAKE_PROFIT | LIQUIDATION.

Inductive OrderStatus :=
  | NEW | PARTIALLY_FILLED | FILLED | CANCELED
  | REJECTED | EXPIRED | PENDING_CANCEL.

Inductive TimeInForce := GTC | IOC | FOK | GTX.

Inductive PositionSide := LONG | SHORT | BOTH.

Inductive MarginType := ISOLATED | CROSS.

#[export] Instance OrderSide_eq_dec : EqDecision OrderSide.
Proof. solve_decision. Defined.
#[export] Instance OrderType_eq_dec : EqDecision OrderType.
Proof. solve_decision. Defined.
#[export] Instance OrderStatus_eq_dec : EqDecision OrderStatus.
Proof. solve_decision. Defined.
#[export] Instance TimeInForce_eq_dec : EqDecision TimeInForce.
Proof. solve_decision. Defined.
#[export] Instance PositionSide_eq_dec : EqDecision PositionSide.
Proof. solve_decision. Defined.
#[export] Instance MarginType_eq_dec : EqDecision MarginType.
Proof. solve_decision. Defined.

(** The [switch] of each printer has a [default: return "UNKNOWN"] arm; it
    is taken only for a value outside the enumeration, which the inductive
    types do not contain. *)

Definition orderSideToString (side : OrderSide) : string :=
  match side with
  | BUY => "BUY"
  | SELL => "SELL"
  end.

Definition orderTypeToString (type : OrderType) : string :=
  match type with
  | MARKET => "MARKET"
  | LIMIT => "LIMIT"
  | POST_ONLY => "POST_ONLY"
  | STOP_MARKET => "STOP_MARKET"
  | STOP_LIMIT => "STOP_LIMIT"
  | TAKE_PROFIT => "TAKE_PROFIT"
  | LIQUIDATION => "LIQUIDATION"
  end.

Definition orderStatusToString (status : OrderStatus) : string :=
  match status with
  | NEW => "NEW"
  | PARTIALLY_FILLED => "PARTIALLY_FILLED"
  | FILLED => "FILLED"
  | CANCELED => "CANCELED"
  | REJECTED => "REJECTED"
  | EXPIRED => "EXPIRED"
  | PENDING_CANCEL => "PENDING_CANCEL"
  end.

Definition timeInForceToString (tif : TimeInForce) : string :=
  match tif with
  | GTC => "GTC"
  | IOC => "IOC"
  | FOK => "FOK"
  | GTX => "GTX"
  end.

Definition positionSideToString (side : PositionSide) : string :=
  match side with
  | LONG => "LONG"
  | SHORT => "SHORT"
  | BOTH => "BOTH"
  end.

Definition marginTypeToString (type : MarginType) : string :=
  match type with
  | ISOLATED => "ISOLATED"
  | CROSS => "CROSS"
  end.

(** The three parsers of the header.  There is no parser for
    [TimeInForce], [PositionSide] or [MarginType]. *)

Definition stringToOrderSide (str : string) : result OrderSide :=
  if String.eqb str "BUY" then ok BUY
  else if String.eqb str "SELL" then ok SELL
  else throw (InvalidArgument ("Invalid order side: " ++ str)%string).

Definition stringToOrderType (str : string) : result OrderType :=
  if String.eqb str "MARKET" then ok MARKET
  else if String.eqb str "LIMIT" then ok LIMIT
  else if String.eqb str "POST_ONLY" then ok POST_ONLY
  else if String.eqb str "STOP_MARKET" then ok STOP_MARKET
  else if String.eqb str "STOP_LIMIT" then ok STOP_LIMIT
  else if String.eqb str "TAKE_PROFIT" then ok TAKE_PROFIT
  else if String.eqb str "LIQUIDATION" then ok LIQUIDATION
  else throw (InvalidArgument ("Invalid order type: " ++ str)%string).

Definition stringToOrderStatus (str : string) : result OrderStatus :=
  if String.eqb str "NEW" then ok NEW
  else if String.eqb str "PARTIALLY_FILLED" then ok PARTIALLY_FILLED
  else if String.eqb str "FILLED" then ok FILLED
  else if String.eqb str "CANCELED" then ok CANCELED
  else if String.eqb str "REJECTED" then ok REJECTED
  else if String.eqb str "EXPIRED" then ok EXPIRED
  else if String.eqb str "PENDING_CANCEL" then ok PENDING_CANCEL
  else throw (InvalidArgument ("Invalid order status: " ++ str)%string).

(** The only place where a string becomes a [MarginType] is the loop of
    [BinanceApi::getOpenPositions]:
    [pos["marginType"].asString() == "isolated" ? ISOLATED : CROSS]. *)
Definition marginTypeOfPositionRisk (str : string) : MarginType :=
  if String.eqb str "isolated" then ISOLATED else CROSS.

(** What the round-trip property asks of a printer and a parser: parsing
    a printed value gives the value back, and a string that is the name
    of no value is refused with an invalid-argument error. *)
Definition round_trips {E : Type}
    (to_string : E -> string) (of_string : string -> result E) : Prop :=
  (forall e : E, of_string (to_string e) = ok e) /\
  (forall s : string, (forall e : E, to_string e <> s) ->
     exists msg, of_string s = throw (InvalidArgument msg)).

(** Order requests and order records, with the fields the modelled
    functions read or write. *)
Record OrderRequest := mkOrderRequest {
  req_symbol : string;
  req_side : OrderSide;
  req_type : OrderType;
  req_quantity : float;
  req_price : float;
  req_stop_price : float;
  req_time_in_force : TimeInForce;
  req_reduce_only : bool;
  req_close_position : bool
}.

Record OrderInfo := mkOrderInfo {
  order_id : string;
  symbol : string;
  side : OrderSide;
  type : OrderType;
  status : OrderStatus;
  original_quantity : float;
  executed_quantity : float;
  price : float
}.

Definition set_status (s : OrderStatus) (o : OrderInfo) : OrderInfo :=
  mkOrderInfo (order_id o) (symbol o) (side o) (type o) s
              (original_quantity o) (executed_quantity o) (price o).

(** The terminal statuses, as [OrderManager::updateOrderCache] and
    [OrderManager::waitForOrderFill] enumerate them. *)
Definition is_terminal (s : OrderStatus) : bool :=
  match s with
  | FILLED | CANCELED | REJECTED | EXPIRED => true
  | NEW | PARTIALLY_FILLED | PENDING_CANCEL => false
  end.

End ExecutionTypes.

(** ** Conversions between [int] and [double] *)

(** [int] to [double]: exact for every 32-bit value. *)
Definition float_of_int (z : Z) : float :=
  let m := PrimFloat.of_uint63 (Uint63.of_Z (Z.abs z)) in
  if z <? 0 then PrimFloat.opp m else m.

(** The integer part of a [double]: the fractional part is discarded
    ([0] for a NaN or an infinity).  It is what the conversion to [int]
    gives where C++ defines it, that is, where the integer part lies in
    the range of [int] (see [BinanceApi.fits_int]). *)
Definition int_of_float (f : float) : Z :=
  match Prim2SF f with
  | S754_finite s m e =>
      let mag := if 0 <=? e then Z.pos m * 2 ^ e
                 else Z.pos m / 2 ^ (- e) in
      if s then - mag else mag
  | _ => 0
  end.

(** ** [binance_api.cpp] *)

Module BinanceApi.
Import ExecutionTypes.

Record RetryConfig := mkRetryConfig {
  max_retries : Z;
  retry_delay_ms : Z;
  backoff_multiplier : float;
  retriable_status_codes : gset Z
}.

(** The status codes the constructor installs. *)
Definition retriable_codes : gset Z :=
  {[ 408; 429; 500; 502; 503; 504 ]}.

(** The [if (retry) { ... }] block of the constructor, given the three
    values read from the configuration tree. *)
Definition loadRetryConfig (max_retries retry_delay_ms : Z)
    (backoff_multiplier : float) : RetryConfig :=
  mkRetryConfig max_retries retry_delay_ms backoff_multiplier
                retriable_codes.

(** The defaults of that block: [getInt("max_retries", 3)],
    [getInt("retry_delay_ms", 1000)],
    [getDouble("backoff_multiplier", 2.0)]. *)
Definition default_retry_config : RetryConfig :=
  loadRetryConfig 3 1000 2%float.

Definition validateSymbol (symbol : string) : result unit :=
  if String.eqb symbol "" then
    throw (InvalidArgument "Symbol cannot be empty")
  else if (String.length symbol <? 2)%nat
          || (20 <? String.length symbol)%nat then
    throw (InvalidArgument ("Invalid symbol length: " ++ symbol)%string)
  else ok tt.

(** *** [std::stoi]: optional white space, optional sign, decimal digits.
    [None] stands for the two exceptions it can throw (no digit at all,
    or a value outside [int]). *)

Definition is_space (c : ascii) : bool :=
  let n := nat_of_ascii c in
  ((n =? 32) || ((9 <=? n) && (n <=? 13)))%nat.

Definition digit_of (c : ascii) : option Z :=
  let n := Z.of_nat (nat_of_ascii c) in
  if (48 <=? n) && (n <=? 57) then Some (n - 48) else None.

Fixpoint skip_space (s : string) : string :=
  match s with
  | String c s' => if is_space c then skip_space s' else s
  | EmptyString => s
  end.

Fixpoint read_digits (acc : option Z) (s : string) : option Z :=
  match s with
  | String c s' =>
      match digit_of c with
      | Some d => read_digits (Some (10 * default 0 acc + d)) s'
      | None => acc
      end
  | EmptyString => acc
  end.

Definition int_min : Z := - 2 ^ 31.
Definition int_max : Z := 2 ^ 31 - 1.

Definition stoi (str : string) : option Z :=
  let s1 := skip_space str in
  let '(neg, s2) :=
    match s1 with
    | String "-"%char r => (true, r)
    | String "+"%char r => (false, r)
    | _ => (false, s1)
    end in
  match read_digits None s2 with
  | None => None
  | Some v =>
      let v' := if neg : bool then - v else v in
      if (int_min <=? v') && (v' <=? int_max) then Some v' else None
  end.

(** [std::string::find] from the start, and [substr]. *)
Definition find (pat s : string) : option nat := String.index 0 pat s.
Definition substr (pos len : nat) (s : string) : string :=
  String.substring pos len s.
Definition substr_from (pos : nat) (s : string) : string :=
  String.substring pos (String.length s) s.

(** The whole body is inside [try { ... } catch (std::exception)], after
    which the function returns [0]. *)
Definition extractStatusCode (error_msg : string) : Z :=
  match find "HTTP " error_msg with
  | Some pos => default 0 (stoi (substr (pos + 5) 3 error_msg))
  | None =>
      match find "Code: " error_msg with
      | Some pos =>
          let code_str := substr_from (pos + 6) error_msg in
          match find "," code_str with
          | Some pos' => default 0 (stoi (substr 0 pos' code_str))
          | None => 0
          end
      | None => 0
      end
  end.

Definition shouldRetry (cfg : RetryConfig)
    (status_code : Z) (retry_count : nat) : bool :=
  if max_retries cfg <=? Z.of_nat retry_count then false
  else bool_decide (status_code ∈ retriable_status_codes cfg).

Definition is_int (z : Z) : bool := (int_min <=? z) && (z <=? int_max).

(** A [double] has an [int] counterpart: it is finite and its integer
    part lies in the range of [int]. *)
Definition fits_int (f : float) : bool :=
  match Prim2SF f with
  | S754_zero _ => true
  | S754_finite _ _ _ => is_int (int_of_float f)
  | _ => false
  end.

(** [delay_ms *= retry_config_.backoff_multiplier]: the product is taken
    in [double] and converted back to [int].  C++ leaves the conversion
    undefined when the product has no [int] counterpart; the conversion
    instruction of x86-64 then yields [INT_MIN], and that is what the
    model takes.  No statement about the delays relies on that choice:
    they are made where every product fits ([delays_fit]). *)
Definition next_delay (cfg : RetryConfig) (delay_ms : Z) : Z :=
  let product :=
    PrimFloat.mul (float_of_int delay_ms) (backoff_multiplier cfg) in
  if fits_int product then int_of_float product else int_min.

(** The first [n] products the loop computes, starting from [delay_ms],
    all have an [int] counterpart. *)
Fixpoint delays_fit (cfg : RetryConfig) (n : nat) (delay_ms : Z) : bool :=
  match n with
  | O => true
  | S n' =>
      fits_int
        (PrimFloat.mul (float_of_int delay_ms) (backoff_multiplier cfg))
      && delays_fit cfg n' (next_delay cfg delay_ms)
  end.

Section ExecuteWithRetry.
Context {T : Type}.
Variable cfg : RetryConfig.

(** [func n] is what the closure does when it is called for the
    [n]-th time, counting from 0: it returns a value or throws.  The
    loop calls it once per iteration, so the call number is
    [retry_count].  The second component of the result lists the
    arguments of [sleep_for], in milliseconds, in order.  [fuel] bounds
    the number of iterations. *)
Fixpoint retry_loop (fuel : nat) (func : nat -> result T)
    (retry_count : nat) (delay_ms : Z) (slept : list Z)
    : option (result T * list Z) :=
  match fuel with
  | O => None
  | S fuel' =>
      match func retry_count with
      | inr v => Some (ok v, slept)
      | inl e =>
          let status_code := extractStatusCode (what e) in
          if negb (shouldRetry cfg status_code retry_count) then
            Some (throw e, slept)
          else
            retry_loop fuel' func (S retry_count)
                       (next_delay cfg delay_ms) (slept ++ [delay_ms])
      end
  end.

Definition executeWithRetry (func : nat -> result T)
    : option (result T * list Z) :=
  retry_loop (S (Z.to_nat (max_retries cfg))) func 0%nat
             (retry_delay_ms cfg) [].

(** The outcome of a call is a failure the policy retries. *)
Definition retriable_failure (r : result T) : Prop :=
  exists e, r = throw e /\
    extractStatusCode (what e) ∈ retriable_status_codes cfg.

(** The policy grants a retry after the call number [n]. *)
Definition retry_granted (func : nat -> result T) (n : nat) : Prop :=
  retriable_failure (func n) /\ Z.of_nat n < max_retries cfg.

(** The first [n] delays: [d], [next_delay d], ... *)
Fixpoint backoff_delays (n : nat) (delay_ms : Z) : list Z :=
  match n with
  | O => []
  | S n' => delay_ms :: backoff_delays n' (next_delay cfg delay_ms)
  end.
End ExecuteWithRetry.

(** The exchange as the adapter sees it: what the request behind each
    operation answers on its [n]-th attempt.  [ex_order_limiter n] is
    the result of [order_limiter_.tryAcquire()] on that attempt. *)
Record Exchange := mkExchange {
  ex_mark_price : string -> nat -> result float;
  ex_order_limiter : nat -> bool;
  ex_place_order : OrderRequest -> nat -> result string;
  ex_cancel_order : string -> string -> nat -> result unit;
  ex_order_status : string -> string -> nat -> result OrderInfo
}.

Section Operations.
Variable cfg : RetryConfig.
Variable ex : Exchange.

Definition getMarkPrice (symbol : string)
    : option (result float * list Z) :=
  executeWithRetry cfg (fun n =>
    do_ validateSymbol symbol;
    ex_mark_price ex symbol n).

Definition placeOrder (request : OrderRequest)
    : option (result string * list Z) :=
  executeWithRetry cfg (fun n =>
    if negb (ex_order_limiter ex n) then
      throw (RuntimeError "Order rate limit exceeded")
    else
      do_ validateSymbol (req_symbol request);
      ex_place_order ex request n).

Definition cancelOrder (symbol orderId : string)
    : option (result bool * list Z) :=
  executeWithRetry cfg (fun n =>
    do_ validateSymbol symbol;
    do_ ex_cancel_order ex symbol orderId n;
    ok true).

Definition getOrderStatus (symbol orderId : string)
    : option (result OrderInfo * list Z) :=
  executeWithRetry cfg (fun n =>
    do_ validateSymbol symbol;
    ex_order_status ex symbol orderId n).
End Operations.

(** *** What [makeRequest] makes of an answer

    Either the transfer fails ([curl_easy_perform] does not return
    [CURLE_OK]), or a response arrives: its status line, which
    [makeRequest] never asks for, and its body, which does not parse, or
    is an object with the members "code" and "msg" (given as [asString]
    renders them), or is the payload the operation reads its result
    from. *)
Inductive Body (T : Type) :=
  | Unparsable (response : string)
  | ApiError (code msg : string)
  | Payload (root : T).

Inductive Answer (T : Type) :=
  | TransferFailed (strerror : string)
  | Response (http_status : Z) (body : Body T).

Arguments Unparsable {T} response.
Arguments ApiError {T} code msg.
Arguments Payload {T} root.
Arguments TransferFailed {T} strerror.
Arguments Response {T} http_status body.

Definition handleCurlError (strerror operation : string) : exn :=
  RuntimeError
    ("CURL error during " ++ operation ++ ": " ++ strerror)%string.

Definition handleJsonError (response operation : string) : exn :=
  RuntimeError
    ("Failed to parse JSON response during " ++ operation ++ ": "
     ++ response)%string.

(** The exception [validateResponse] throws for an error object. *)
Definition validateResponse (code msg : string) : exn :=
  RuntimeError ("API error - Code: " ++ code ++ ", Message: " ++ msg)%string.

Definition makeRequest {T : Type} (method endpoint : string)
    (answer : Answer T) : result T :=
  match answer with
  | TransferFailed strerror =>
      throw (handleCurlError strerror (method ++ " " ++ endpoint)%string)
  | Response _ (Unparsable response) =>
      throw (handleJsonError response (method ++ " " ++ endpoint)%string)
  | Response _ (ApiError code msg) => throw (validateResponse code msg)
  | Response _ (Payload root) => ok root
  end.

End BinanceApi.

(** ** The order manager *)

Module OrderManager.
Import ExecutionTypes.

Record Config := mkConfig {
  max_retry_times : Z;
  retry_delay_ms : Z;
  price_deviation_threshold : float;
  order_timeout_ms : Z;
  use_post_only : bool
}.

(** The defaults the constructor passes to the configuration getters. *)
Definition default_config : Config :=
  mkConfig 3 200 0.001%float 5000 true.

(** [active_orders_], the active-orders index, keyed by order id. *)
Abbreviation OrderCache := (gmap string OrderInfo).

Definition status_is (s : OrderStatus) (o : OrderInfo) : bool :=
  bool_decide (status o = s).

Definition updateOrderCache (order : OrderInfo) (active_orders : OrderCache)
    : OrderCache :=
  if status_is FILLED order || status_is CANCELED order
     || status_is REJECTED order || status_is EXPIRED order
  then delete (order_id order) active_orders
  else <[ order_id order := order ]> active_orders.

(** [handleOrderUpdate]: the cache part (the callback lookup does not
    touch the index). *)
Definition handleOrderUpdate (update : OrderInfo)
    (active_orders : OrderCache) : OrderCache :=
  updateOrderCache update active_orders.

Definition splitOrder (request : OrderRequest) : list OrderRequest :=
  [request].

Definition validateOrderRequest (request : OrderRequest) : bool :=
  if String.eqb (req_symbol request) "" then false
  else if PrimFloat.leb (req_quantity request) 0 then false
  else if negb (bool_decide (req_type request = MARKET))
          && PrimFloat.leb (req_price request) 0 then false
  else true.

Definition calculateSlippagePrice (cfg : Config) (symbol : string)
    (side : OrderSide) (price : float) : float :=
  if bool_decide (side = BUY) then
    PrimFloat.mul price (PrimFloat.add 1 (price_deviation_threshold cfg))
  else
    PrimFloat.mul price (PrimFloat.sub 1 (price_deviation_threshold cfg)).

Definition with_price (p : float) (r : OrderRequest) : OrderRequest :=
  mkOrderRequest (req_symbol r) (req_side r) (req_type r) (req_quantity r)
    p (req_stop_price r) (req_time_in_force r) (req_reduce_only r)
    (req_close_position r).

Definition with_type (t : OrderType) (r : OrderRequest) : OrderRequest :=
  mkOrderRequest (req_symbol r) (req_side r) t (req_quantity r)
    (req_price r) (req_stop_price r) (req_time_in_force r)
    (req_reduce_only r) (req_close_position r).

(** The block of [placeOrder] under the comment "modify the order
    request": what becomes of [request] given the slippage price. *)
Definition adjustRequest (cfg : Config) (request : OrderRequest)
    (adjusted_price : float) : OrderRequest :=
  if negb (bool_decide (req_type request = MARKET)) then
    let r := with_price adjusted_price request in
    if use_post_only cfg then with_type POST_ONLY r else r
  else request.

Section WithApi.
Variable cfg : Config.
Variable api : BinanceApi.RetryConfig.

(** What [placeOrder] leaves behind: its result, the index, and the
    requests it handed to [api_->placeOrder], in order.

    [splitOrder] returns the request alone, so the test
    [split_orders.size() > 1] fails and the batch branch is never
    entered; it is left out.  [OrderInfo info;] leaves the fields
    that are not assigned indeterminate; the executed quantity is
    modelled as [0]. *)
Definition placeOrder (ex : BinanceApi.Exchange)
    (request : OrderRequest) (active_orders : OrderCache)
    : option (result string * OrderCache * list OrderRequest) :=
  if negb (validateOrderRequest request) then
    Some (throw (InvalidArgument "Invalid order request"),
          active_orders, [])
  else
    '(rp, _) ← BinanceApi.getMarkPrice api ex (req_symbol request);
    match rp with
    | inl e => Some (throw e, active_orders, [])
    | inr mark_price =>
        let adjusted_price :=
          calculateSlippagePrice cfg (req_symbol request)
                                 (req_side request) mark_price in
        let adjusted_request :=
          adjustRequest cfg request adjusted_price in
        '(ro, _) ← BinanceApi.placeOrder api ex adjusted_request;
        match ro with
        | inl e => Some (throw e, active_orders, [adjusted_request])
        | inr order_id =>
            let info :=
              mkOrderInfo order_id (req_symbol request)
                (req_side request) (req_type request) NEW
                (req_quantity request) 0
                (req_price adjusted_request) in
            Some (ok order_id, updateOrderCache info active_orders,
                  [adjusted_request])
        end
    end.

Definition cancelOrder (ex : BinanceApi.Exchange)
    (symbol orderId : string) (active_orders : OrderCache)
    : option (bool * OrderCache) :=
  '(r, _) ← BinanceApi.cancelOrder api ex symbol orderId;
  Some
    match r with
    | inr true =>
        (true,
         match active_orders !! orderId with
         | Some o => <[ orderId := set_status CANCELED o ]> active_orders
         | None => active_orders
         end)
    | inr false => (false, active_orders)
    | inl _ => (false, active_orders)
    end.

(** The result and the milliseconds slept inside the adapter. *)
Definition getOrderStatus (ex : BinanceApi.Exchange)
    (symbol orderId : string) (active_orders : OrderCache)
    : option (result OrderInfo * list Z) :=
  match active_orders !! orderId with
  | Some o => Some (ok o, [])
  | None => BinanceApi.getOrderStatus api ex symbol orderId
  end.

(** [waitForOrderFill] polls.  The index is written by the stream
    thread between two polls and the exchange answers anew each time,
    so the environment of the loop gives, for the poll number [n]:
    the index [caches n], the exchange [exs n], and [elapsed n], the
    steady-clock milliseconds since [start_time] read in that
    iteration.  The result carries every sleep, in order: those of the
    adapter's retries and the 100 ms between polls. *)
Section Wait.
Variable caches : nat -> OrderCache.
Variable exs : nat -> BinanceApi.Exchange.
Variable elapsed : nat -> Z.
Variable orderId : string.
Variable timeout_ms : Z.

Fixpoint wait_loop (fuel : nat) (n : nat) (slept : list Z)
    : option (bool * list Z) :=
  match fuel with
  | O => None
  | S fuel' =>
      '(r, s) ← getOrderStatus (exs n) "" orderId (caches n);
      match r with
      | inl _ => Some (false, slept ++ s)
      | inr info =>
          if status_is FILLED info then Some (true, slept ++ s)
          else if status_is CANCELED info || status_is REJECTED info
                  || status_is EXPIRED info
          then Some (false, slept ++ s)
          else if timeout_ms <=? elapsed n
          then Some (false, slept ++ s)
          else wait_loop fuel' (S n) (slept ++ s ++ [100])
      end
  end.

Definition waitForOrderFill (fuel : nat) : option (bool * list Z) :=
  wait_loop fuel 0%nat [].
End Wait.
End WithApi.

(** The index holds no terminal record. *)
Definition no_terminal_entry (active_orders : OrderCache) : Prop :=
  forall id o, active_orders !! id = Some o -> is_terminal (status o) = false.

End OrderManager.

(** ** Clock readings *)

(** A [system_clock::time_point] is its count of ticks since the epoch;
    the tick of the platform's [system_clock] is the nanosecond. *)
Definition ticks_per_second : Z := 1000000000.
Definition ticks_per_minute : Z := 60 * ticks_per_second.
Definition ticks_per_hour : Z := 60 * ticks_per_minute.

(** [duration_cast<minutes>(d).count()]: the quotient, rounded towards
    zero. *)
Definition duration_cast_minutes (d : Z) : Z := Z.quot d ticks_per_minute.

(** ** The risk manager *)

Module RiskManager.

Record RiskLimits := mkRiskLimits {
  max_position_size : float;
  max_total_positions : float
}.

Inductive RiskEventType :=
  | MARGIN_CALL | LIQUIDATION_WARNING | DRAWDOWN_LIMIT_BREACH
  | DAILY_LOSS_LIMIT_BREACH | POSITION_LIMIT_BREACH | HIGH_VOLATILITY
  | FUNDING_RATE_WARNING | TRADE_FREQUENCY_WARNING.

Record RiskEvent := mkRiskEvent {
  ev_type : RiskEventType;
  ev_symbol : string;
  ev_message : string;
  ev_threshold_value : float;
  ev_current_value : float;
  ev_time : Z
}.

(** [position_risks_] is read through its entries in key order; of a
    [PositionRisk] only [size] is read by the functions below. *)
Record State := mkState {
  emergency_mode : bool;
  limits : RiskLimits;
  position_risks : list (string * float);
  recent_events : list RiskEvent
}.

Definition with_events (evs : list RiskEvent) (st : State) : State :=
  mkState (emergency_mode st) (limits st) (position_risks st) evs.

(** The members of [RiskManager] the model takes as parameters, with the
    signatures the class declares.  All but [updateMetrics] have no body
    in the sources; those that [checkNewPosition] calls inside its [try]
    block may throw.

    [updateMetrics] has a body: it asks the exchange for positions and
    prices and, holding [metrics_mutex_], can reach [recordRiskEvent]
    through [checkMetricsThresholds] and [checkLiquidationRisk], which
    locks the same mutex again, so that the call need not return.  The
    parameter is the state it leaves when it does return; what is said
    of an approval is said of a call of [checkNewPosition] that
    returned. *)
Record Helpers := mkHelpers {
  shouldTriggerEmergency : RiskEventType -> bool;
  handleEmergencyCase : string -> RiskEvent -> State -> State;
  calculateRequiredMargin : State -> string -> float -> result float;
  checkMarginRequirements : State -> string -> float -> result bool;
  checkFundingRateExposure :
    State -> string -> float -> float -> result bool;
  checkVolatility : State -> string -> result bool;
  checkTradingFrequency : State -> string -> result bool;
  updateMetrics : State -> string -> State
}.

Definition event_message (type : RiskEventType) : string :=
  match type with
  | MARGIN_CALL => "Margin ratio below minimum requirement"
  | LIQUIDATION_WARNING => "Position approaching liquidation price"
  | DRAWDOWN_LIMIT_BREACH => "Drawdown limit exceeded"
  | _ => ""
  end.

(** [cleanupOldEvents]: pop from the front while the front is older
    than 24 hours. *)
Fixpoint cleanupOldEvents (now : Z) (events : list RiskEvent)
    : list RiskEvent :=
  match events with
  | ev :: rest =>
      if 24 * ticks_per_hour <? now - ev_time ev
      then cleanupOldEvents now rest
      else events
  | [] => []
  end.

(** The two readings of the system clock in one [recordRiskEvent]: the
    one that stamps the event, and the one [cleanupOldEvents] takes
    after the event has been pushed. *)
Record Clock := mkClock {
  event_time : Z;
  cleanup_time : Z
}.

Section WithHelpers.
Variable h : Helpers.

(** The callback is invoked under a [catch] and does not touch the
    manager's state. *)
Definition recordRiskEvent (now : Clock) (type : RiskEventType)
    (symbol : string) (current_value threshold_value : float)
    (st : State) : State :=
  let event :=
    mkRiskEvent type symbol (event_message type)
                threshold_value current_value (event_time now) in
  let st1 :=
    with_events
      (cleanupOldEvents (cleanup_time now) (recent_events st ++ [event]))
      st in
  if shouldTriggerEmergency h type
  then handleEmergencyCase h symbol event st1
  else st1.

(** The sum the loop of [checkPositionLimits] accumulates. *)
Fixpoint total_with_others (symbol : string) (total : float)
    (risks : list (string * float)) : float :=
  match risks with
  | (sym, size) :: rest =>
      total_with_others symbol
        (if negb (String.eqb sym symbol)
         then PrimFloat.add total (PrimFloat.abs size) else total)
        rest
  | [] => total
  end.

Definition checkPositionLimits (now : Clock) (symbol : string)
    (size : float) (st : State) : bool * State :=
  if PrimFloat.ltb (max_position_size (limits st)) size then
    (false,
     recordRiskEvent now POSITION_LIMIT_BREACH symbol size
                     (max_position_size (limits st)) st)
  else
    let total_positions :=
      total_with_others symbol size (position_risks st) in
    if PrimFloat.ltb (max_total_positions (limits st)) total_positions
    then
      (false,
       recordRiskEvent now POSITION_LIMIT_BREACH symbol total_positions
                       (max_total_positions (limits st)) st)
    else (true, st).

(** The [try] block of [checkNewPosition]; an exception is turned into
    [false] by the [catch]. *)
Definition checkNewPosition_checks (now : Clock) (symbol : string)
    (size funding_rate : float) (st : State) : result bool * State :=
  let '(within, st1) := checkPositionLimits now symbol size st in
  if negb within then (ok false, st1)
  else
    let r :=
      do required_margin <- calculateRequiredMargin h st1 symbol size;
      do margin_ok <- checkMarginRequirements h st1 symbol required_margin;
      if negb margin_ok then ok false else
      do funding_ok <-
        checkFundingRateExposure h st1 symbol funding_rate size;
      if negb funding_ok then ok false else
      do vol_ok <- checkVolatility h st1 symbol;
      if negb vol_ok then ok false else
      do freq_ok <- checkTradingFrequency h st1 symbol;
      if negb freq_ok then ok false else ok true in
    match r with
    | inr true => (ok true, updateMetrics h st1 symbol)
    | _ => (r, st1)
    end.

Definition checkNewPosition (now : Clock) (symbol : string)
    (size funding_rate : float) (st : State) : bool * State :=
  if emergency_mode st then
    (false, recordRiskEvent now POSITION_LIMIT_BREACH symbol size 0 st)
  else
    let '(r, st1) :=
      checkNewPosition_checks now symbol size funding_rate st in
    match r with
    | inr b => (b, st1)
    | inl _ => (false, st1)
    end.
End WithHelpers.

End RiskManager.

(** ** [FundingArbitrageEngine] *)

Module Engine.

Record InstrumentInfo := mkInstrumentInfo {
  symbol : string;
  spot_price : float;
  futures_price : float;
  funding_rate : float;
  next_funding_time : Z
}.

Record Params := mkParams {
  pre_funding_minutes : Z;
  use_twap : bool;
  twap_intervals : Z;
  max_drawdown_limit : float;           (* [params_.max_drawdown] *)
  position_imbalance_tolerance : float
}.

(** The member initialisers of [FundingArbitrageParams]. *)
Definition default_params : Params :=
  mkParams 60 true 3 0.02%float 0.01%float.

Abbreviation Positions := (gmap string float).

Record State := mkState {
  active_instruments : list InstrumentInfo;
  spot_positions : Positions;
  futures_positions : Positions;
  total_pnl : float;
  current_drawdown : float;
  max_drawdown : float;
  hourly_pnl_history : list float
}.

Definition with_positions (spot futures : Positions) (st : State) : State :=
  mkState (active_instruments st) spot futures (total_pnl st)
          (current_drawdown st) (max_drawdown st) (hourly_pnl_history st).

Definition with_drawdown (current maxd : float) (st : State) : State :=
  mkState (active_instruments st) (spot_positions st)
          (futures_positions st) (total_pnl st) current maxd
          (hourly_pnl_history st).

(** [m[key]] of [std::map<std::string, double>]: the value, and the map
    with a zero entry added when the key was absent. *)
Definition map_index (key : string) (m : Positions) : float * Positions :=
  match m !! key with
  | Some v => (v, m)
  | None => (0%float, <[ key := 0%float ]> m)
  end.

(** The keys in the order [std::map] iterates: ascending strings,
    compared byte by byte. *)
Definition string_le (a b : string) : Prop := String.leb a b = true.

#[export] Instance string_le_dec (a b : string) : Decision (string_le a b).
Proof. unfold string_le. apply _. Defined.

Definition keys_in_order (m : Positions) : list string :=
  merge_sort string_le (map fst (map_to_list m)).

(** *** The pre-funding window *)

Definition in_window (params : Params) (now : Z)
    (instrument : InstrumentInfo) : bool :=
  let time_to_funding :=
    duration_cast_minutes (next_funding_time instrument - now) in
  (time_to_funding <=? pre_funding_minutes params)
  && (0 <? time_to_funding).

Fixpoint window_scan (params : Params) (now : Z)
    (instruments : list InstrumentInfo) : bool :=
  match instruments with
  | instrument :: rest =>
      if in_window params now instrument then true
      else window_scan params now rest
  | [] => false
  end.

Definition checkTradingWindow (params : Params) (now : Z) (st : State)
    : bool :=
  window_scan params now (active_instruments st).

(** *** Leg orders *)

(** A call of [executeSingleOrder] or [executeTwapOrder], with its
    arguments [(symbol, size, is_spot, is_buy)]. *)
Inductive Execution := Single | Twap.

Record LegOrder := mkLegOrder {
  leg_execution : Execution;
  leg_symbol : string;
  leg_size : float;
  leg_is_spot : bool;
  leg_is_buy : bool
}.

Section WithExecutor.
Variable params : Params.
(** Whether a leg order runs to completion or throws: both executors
    talk to the exchange, [executeSingleOrder] has no body in the
    sources. *)
Variable run : LegOrder -> result unit.

(** [balancePositions]: the state it leaves and the leg orders it
    issues.  Its [catch] swallows a failed order. *)
Definition balancePositions (symbol : string) (st : State)
    : State * list LegOrder :=
  let '(spot_position, spot') := map_index symbol (spot_positions st) in
  let '(futures_position, futures') :=
    map_index symbol (futures_positions st) in
  let st' := with_positions spot' futures' st in
  let imbalance :=
    PrimFloat.abs (PrimFloat.add spot_position futures_position) in
  if PrimFloat.ltb (position_imbalance_tolerance params) imbalance then
    let adjustment_size := PrimFloat.div imbalance 2 in
    if PrimFloat.ltb (PrimFloat.opp futures_position) spot_position then
      (st', [mkLegOrder Single symbol adjustment_size true false])
    else
      (st', [mkLegOrder Single symbol adjustment_size false true])
  else (st', []).

(** Issue the leg orders of a list in turn, stopping at the first that
    throws; the second component lists the orders issued. *)
Fixpoint issue (orders : list LegOrder) : result unit * list LegOrder :=
  match orders with
  | o :: rest =>
      match run o with
      | inl e => (throw e, [o])
      | inr _ => let '(r, tr) := issue rest in (r, o :: tr)
      end
  | [] => (ok tt, [])
  end.

(** The leg orders [closePositions] issues for one symbol. *)
Definition closing_orders (sym : string) (spot_size futures_size : float)
    : list LegOrder :=
  let how := if use_twap params then Twap else Single in
  (if PrimFloat.ltb 0 spot_size
   then [mkLegOrder how sym (PrimFloat.abs spot_size) true false]
   else [])
  ++
  (if PrimFloat.ltb 0 futures_size
   then [mkLegOrder how sym (PrimFloat.abs futures_size) false false]
   else []).

(** The body of the [for] loop of [closePositions] for one symbol. *)
Definition close_one (sym : string) (st : State)
    : result unit * State * list LegOrder :=
  let '(spot_size, spot') := map_index sym (spot_positions st) in
  let '(futures_size, futures') :=
    map_index sym (futures_positions st) in
  let st' := with_positions spot' futures' st in
  if PrimFloat.ltb 0 (PrimFloat.abs spot_size)
     || PrimFloat.ltb 0 (PrimFloat.abs futures_size) then
    let '(r, tr) := issue (closing_orders sym spot_size futures_size) in
    match r with
    | inl e => (throw e, st', tr)
    | inr _ =>
        (ok tt, with_positions (delete sym spot') (delete sym futures') st',
         tr)
    end
  else (ok tt, st', []).

Fixpoint close_each (syms : list string) (st : State)
    : result unit * State * list LegOrder :=
  match syms with
  | sym :: rest =>
      let '(r, st', tr) := close_one sym st in
      match r with
      | inl e => (throw e, st', tr)
      | inr _ =>
          let '(r', st'', tr') := close_each rest st' in
          (r', st'', tr ++ tr')
      end
  | [] => (ok tt, st, [])
  end.

(** [closePositions]: an exception of an executor is logged and
    rethrown. *)
Definition closePositions (symbol : string) (st : State)
    : result unit * State * list LegOrder :=
  let symbols_to_close :=
    if String.eqb symbol "" then keys_in_order (spot_positions st)
    else [symbol] in
  close_each symbols_to_close st.
End WithExecutor.

(** *** Drawdown *)

(** [std::max_element] over a non-empty range: the first of the largest
    elements under [<]. *)
Fixpoint max_element_from (largest : float) (rest : list float) : float :=
  match rest with
  | x :: rest' =>
      max_element_from (if PrimFloat.ltb largest x then x else largest) rest'
  | [] => largest
  end.

Record DrawdownAlert := mkDrawdownAlert {
  alert_current_value : float;
  alert_threshold : float
}.

(** [updateDrawdown]: the state it leaves and the alerts it sends. *)
Definition updateDrawdown (params : Params) (st : State)
    : State * list DrawdownAlert :=
  match hourly_pnl_history st with
  | [] => (st, [])
  | first :: rest =>
      let peak := max_element_from first rest in
      let current :=
        if PrimFloat.ltb 0 peak
        then PrimFloat.div (PrimFloat.sub peak (total_pnl st)) peak
        else current_drawdown st in
      if PrimFloat.ltb (max_drawdown st) current then
        (with_drawdown current current st,
         if PrimFloat.ltb (max_drawdown_limit params) current
         then [mkDrawdownAlert current (max_drawdown_limit params)]
         else [])
      else (with_drawdown current (max_drawdown st) st, [])
  end.

End Engine.

(** ** Sample environments

    Concrete exchanges, helpers and states on which the functions above
    are run in the examples of the second part. *)

Module Samples.
Import ExecutionTypes.

(** An exchange on which every request succeeds at once: the mark price
    is 50000 and the order gets the id ["1"]. *)
Definition exchange_ok : BinanceApi.Exchange :=
  BinanceApi.mkExchange
    (fun _ _ => ok 50000%float)
    (fun _ => true)
    (fun _ _ => ok "1")
    (fun _ _ _ => ok tt)
    (fun _ id _ =>
       ok (mkOrderInfo id "BTCUSDT" BUY LIMIT FILLED 1 1 50000)).

(** A closure that fails with HTTP 429 on every call. *)
Definition always_429 : nat -> result string :=
  fun _ => throw (RuntimeError "HTTP 429 Too Many Requests").

(** A closure that fails twice with HTTP 503 and then returns. *)
Definition third_time_lucky : nat -> result string :=
  fun n => if (n <? 2)%nat then throw (RuntimeError "HTTP 503")
           else ok "done".

(** A stop-limit request for one contract at 49000. *)
Definition stop_limit_request : OrderRequest :=
  mkOrderRequest "BTCUSDT" SELL STOP_LIMIT 1 49000 49500 GTC false false.

(** An active order, as [placeOrder] caches it. *)
Definition new_order : OrderInfo :=
  mkOrderInfo "1" "BTCUSDT" BUY LIMIT NEW 1 0 50050.

(** Risk helpers that accept everything and never trigger. *)
Definition lenient_helpers : RiskManager.Helpers :=
  RiskManager.mkHelpers
    (fun _ => false)
    (fun _ _ st => st)
    (fun _ _ _ => ok 0%float)
    (fun _ _ _ => ok true)
    (fun _ _ _ _ => ok true)
    (fun _ _ => ok true)
    (fun _ _ => ok true)
    (fun st _ => st).

Definition risk_state (emergency : bool) : RiskManager.State :=
  RiskManager.mkState emergency (RiskManager.mkRiskLimits 1 3) [] [].

(** Leg orders that always run to completion. *)
Definition run_ok : Engine.LegOrder -> result unit := fun _ => ok tt.

(** An engine state holding one pair on BTCUSDT. *)
Definition pair_state (spot futures : float) : Engine.State :=
  Engine.mkState []
    {[ "BTCUSDT" := spot ]} {[ "BTCUSDT" := futures ]} 0 0 0 [].

(** An engine state with a PnL history and drawdown figures. *)
Definition pnl_state (history : list float) (total_pnl current maxd : float)
    : Engine.State :=
  Engine.mkState [] ∅ ∅ total_pnl current maxd history.

Definition instrument_at (next_funding_time : Z) : Engine.InstrumentInfo :=
  Engine.mkInstrumentInfo "BTCUSDT" 50000 50050 0.001 next_funding_time.

(** An exchange whose local order limiter turns every placement down. *)
Definition exchange_limited : BinanceApi.Exchange :=
  BinanceApi.mkExchange
    (fun _ _ => ok 50000%float)
    (fun _ => false)
    (fun _ _ => ok "1")
    (fun _ _ _ => ok tt)
    (fun _ id _ =>
       ok (mkOrderInfo id "BTCUSDT" BUY LIMIT FILLED 1 1 50000)).

(** An exchange that answers every request with HTTP 429 and the error
    object Binance sends with it. *)
Definition too_many_requests {T : Type} : BinanceApi.Answer T :=
  BinanceApi.Response 429
    (BinanceApi.ApiError "-1003" "Too many requests.").

Definition exchange_http_429 : BinanceApi.Exchange :=
  BinanceApi.mkExchange
    (fun _ _ =>
       BinanceApi.makeRequest "GET" "/fapi/v1/premiumIndex"
         too_many_requests)
    (fun _ => true)
    (fun _ _ =>
       BinanceApi.makeRequest "POST" "/fapi/v1/order" too_many_requests)
    (fun _ _ _ =>
       BinanceApi.makeRequest "DELETE" "/fapi/v1/order" too_many_requests)
    (fun _ _ _ =>
       BinanceApi.makeRequest "GET" "/fapi/v1/order" too_many_requests).

End Samples.

(** ** Histories of the order index *)

Module OrderHistory.
Import ExecutionTypes OrderManager.

(** What the order manager does to its index in normal operation: it
    places an order, or it receives an order update from the stream. *)
Inductive Step :=
  | Place (ex : BinanceApi.Exchange) (request : OrderRequest)
  | Update (update : OrderInfo).

Definition step (cfg : Config) (api : BinanceApi.RetryConfig)
    (s : Step) (active_orders : OrderCache) : option OrderCache :=
  match s with
  | Place ex request =>
      '(_, active_orders', _) ← placeOrder cfg api ex request active_orders;
      Some active_orders'
  | Update update => Some (handleOrderUpdate update active_orders)
  end.

Fixpoint run (cfg : Config) (api : BinanceApi.RetryConfig)
    (steps : list Step) (active_orders : OrderCache) : option OrderCache :=
  match steps with
  | [] => Some active_orders
  | s :: rest =>
      active_orders' ← step cfg api s active_orders;
      run cfg api rest active_orders'
  end.

End OrderHistory.

(** ** Emergency actions of the risk manager *)

Module RiskActions.
Import ExecutionTypes.

(** The fields of [RiskControlSettings] and of a [PositionRisk] that
    [RiskManager::executeEmergencyActions] reads. *)
Record RiskControlSettings := mkRiskControlSettings {
  auto_reduce_position : bool;
  auto_adjust_leverage : bool;
  position_reduction_ratio : float
}.

Record PositionRisk := mkPositionRisk {
  size : float;
  leverage : Z
}.

(** The calls made on the adapter. *)
Inductive ApiCall :=
  | CallPlaceOrder (request : OrderRequest)
  | CallSetLeverage (symbol : string) (leverage : Z).

(** The request of the reduction order; the fields the designated
    initialiser leaves out take their defaults from [OrderRequest]. *)
Definition reduction_request (symbol : string) (risk_size : float)
    (reduction_size : float) : OrderRequest :=
  mkOrderRequest symbol
    (if PrimFloat.ltb 0 risk_size then SELL else BUY)
    MARKET reduction_size 0 0 GTC true false.

(** [executeEmergencyActions(symbol)], where [risk] is
    [position_risks_[symbol]], [place] is what [api_->placeOrder] does
    with the request and [set_leverage] what [api_->setLeverage] does.
    The result is the return value and the calls made, in order; an
    exception of either call is caught and turned into [false]. *)
Definition executeEmergencyActions (settings : RiskControlSettings)
    (place : OrderRequest -> result string)
    (set_leverage : string -> Z -> result bool)
    (symbol : string) (risk : PositionRisk) : bool * list ApiCall :=
  let reduction_size :=
    PrimFloat.abs
      (PrimFloat.mul (size risk) (position_reduction_ratio settings)) in
  let reduce :=
    auto_reduce_position settings && PrimFloat.ltb 0 reduction_size in
  let request := reduction_request symbol (size risk) reduction_size in
  let placed := if reduce then [CallPlaceOrder request] else [] in
  if reduce && negb (is_ok (place request)) then (false, placed)
  else if auto_adjust_leverage settings && (1 <? leverage risk) then
    let new_leverage := Z.max 1 (Z.quot (leverage risk) 2) in
    (is_ok (set_leverage symbol new_leverage),
     placed ++ [CallSetLeverage symbol new_leverage])
  else (true, placed).

End RiskActions.

(** ** The risk event log *)

Module RiskLog.
Import RiskManager.

(** The times of a log are in order, oldest first. *)
Definition in_time_order (events : list RiskEvent) : Prop :=
  forall i j a b,
    (i <= j)%nat -> events !! i = Some a -> events !! j = Some b ->
    ev_time a <= ev_time b.

End RiskLog.

(** ** [RateLimiter] ([src/unnamed/part_001]) *)

Module RateLimiter.

(** The steady clock counts the same ticks; [one_second] is
    [std::chrono::seconds(1)]. *)
Definition one_second : Z := ticks_per_second.

(** [request_times_], front first. *)
Record State := mkState {
  requests_per_second : Z;
  request_times : list Z
}.

(** The first loop of [acquire]: pop the front while it is more than a
    second old. *)
Fixpoint drop_expired (now : Z) (times : list Z) : list Z :=
  match times with
  | front :: rest =>
      if one_second <? now - front then drop_expired now rest else times
  | [] => []
  end.

(** [request_times_.size() >= requests_per_second_] compares a [size_t]
    with an [int]: the [int] is converted to the unsigned 64-bit type. *)
Definition as_size_t (n : Z) : Z := n mod 2 ^ 64.

(** [acquire()].  [now] is the first reading of the clock; [after_sleep d]
    is the reading taken after [sleep_for(d)].  The result is the new
    state and the duration slept (0 when there was no sleep).  [None]
    stands for the undefined behaviour of [front()] on an empty queue,
    which the limit test reaches when [requests_per_second_] is 0. *)
Definition acquire (now : Z) (after_sleep : Z -> Z) (st : State)
    : option (State * Z) :=
  let times := drop_expired now (request_times st) in
  if as_size_t (requests_per_second st) <=? Z.of_nat (length times) then
    match times with
    | [] => None
    | front :: _ =>
        let sleep_duration := one_second - (now - front) in
        if 0 <? sleep_duration then
          Some (mkState (requests_per_second st)
                        (times ++ [after_sleep sleep_duration]),
                sleep_duration)
        else
          Some (mkState (requests_per_second st) (times ++ [now]), 0)
    end
  else Some (mkState (requests_per_second st) (times ++ [now]), 0).

(** The acquisitions recorded within the second that ends at [p]
    (exclusive of its start). *)
Definition within_last_second (p : Z) (times : list Z) : list Z :=
  filter (fun t => p - one_second < t) times.

(** The limit holds at the latest acquisition. *)
Definition window_ok (st : State) : Prop :=
  forall p, last (request_times st) = Some p ->
    Z.of_nat (length (within_last_second p (request_times st)))
    <= requests_per_second st.

End RateLimiter.

(** ** Emergency calls: well-formedness *)

Module RiskActionFacts.
Import ExecutionTypes RiskActions.

(** What an emergency call may look like for a position [risk]. *)
Definition call_allowed (settings : RiskControlSettings)
    (symbol : string) (risk : PositionRisk) (c : ApiCall) : Prop :=
  match c with
  | CallPlaceOrder request =>
      auto_reduce_position settings = true /\
      req_symbol request = symbol /\
      req_type request = MARKET /\
      req_reduce_only request = true /\
      req_quantity request
      = PrimFloat.abs
          (PrimFloat.mul (size risk) (position_reduction_ratio settings)) /\
      PrimFloat.ltb 0 (req_quantity request) = true /\
      (PrimFloat.ltb 0 (size risk) = true -> req_side request = SELL) /\
      (PrimFloat.ltb (size risk) 0 = true -> req_side request = BUY)
  | CallSetLeverage sym new_leverage =>
      auto_adjust_leverage settings = true /\
      sym = symbol /\
      1 <= new_leverage < leverage risk /\
      (2 <= leverage risk -> new_leverage = leverage risk / 2)
  end.

(** The call came back without an exception. *)
Definition call_returned (place : OrderRequest -> result string)
    (set_leverage : string -> Z -> result bool) (c : ApiCall) : bool :=
  match c with
  | CallPlaceOrder request => is_ok (place request)
  | CallSetLeverage sym new_leverage => is_ok (set_leverage sym new_leverage)
  end.

End RiskActionFacts.

(** ** [AlertManager] ([src/monitor/alerts/alert_manager.cpp]) *)

Module AlertManager.

Inductive AlertLevel := INFO | WARNING | ERROR | CRITICAL.

Inductive AlertType :=
  | SYSTEM_ERROR | CONNECTION_LOST | HIGH_LATENCY | POSITION_RISK
  | MARGIN_RISK | LIQUIDATION_RISK | DRAWDOWN_WARNING | PNL_WARNING
  | FUNDING_RATE_WARNING | TRADE_FREQUENCY_HIGH.

(** The enumerators in their order of declaration: [>=] on an
    [enum class] compares these numbers. *)
Definition level_rank (l : AlertLevel) : Z :=
  match l with INFO => 0 | WARNING => 1 | ERROR => 2 | CRITICAL => 3 end.

Definition level_ge (a b : AlertLevel) : bool :=
  level_rank b <=? level_rank a.

Definition type_rank (t : AlertType) : nat :=
  match t with
  | SYSTEM_ERROR => 0 | CONNECTION_LOST => 1 | HIGH_LATENCY => 2
  | POSITION_RISK => 3 | MARGIN_RISK => 4 | LIQUIDATION_RISK => 5
  | DRAWDOWN_WARNING => 6 | PNL_WARNING => 7 | FUNDING_RATE_WARNING => 8
  | TRADE_FREQUENCY_HIGH => 9
  end%nat.

Definition type_of_rank (n : nat) : AlertType :=
  match n with
  | 0 => SYSTEM_ERROR | 1 => CONNECTION_LOST | 2 => HIGH_LATENCY
  | 3 => POSITION_RISK | 4 => MARGIN_RISK | 5 => LIQUIDATION_RISK
  | 6 => DRAWDOWN_WARNING | 7 => PNL_WARNING | 8 => FUNDING_RATE_WARNING
  | _ => TRADE_FREQUENCY_HIGH
  end%nat.

#[export] Instance AlertType_eq_dec : EqDecision AlertType.
Proof. solve_decision. Defined.

#[export] Instance AlertType_countable : Countable AlertType.
Proof.
  apply (inj_countable' type_rank type_of_rank). by intros [].
Defined.

Record Alert := mkAlert {
  type : AlertType;
  level : AlertLevel;
  source : string;
  message : string;
  details : string;
  threshold : float;
  current_value : float;
  is_resolved : bool;
  time : Z;
  resolve_time : Z
}.

Record AlertConfig := mkAlertConfig {
  email_enabled : bool;
  slack_enabled : bool;
  telegram_enabled : bool;
  email_recipients : string;
  slack_webhook : string;
  telegram_bot_token : string;
  telegram_chat_id : string;
  alert_interval_seconds : Z;
  max_alerts_per_hour : Z
}.

Record State := mkState {
  active_alerts : gmap (AlertType * string) Alert;
  alert_history : list Alert;
  alert_counts : gmap AlertType Z;
  last_alert_times : gmap AlertType Z
}.

Definition empty_state : State := mkState ∅ [] ∅ ∅.

(** [duration_cast<seconds>(d).count()]. *)
Definition duration_cast_seconds (d : Z) : Z := Z.quot d ticks_per_second.

(** [shouldThrottleAlert]: the verdict and the counters, to which
    [alert_counts_[alert.type]] adds a zero entry when the type has
    none. *)
Definition shouldThrottleAlert (config : AlertConfig) (now : Z)
    (alert : Alert) (st : State) : bool * gmap AlertType Z :=
  let within_interval :=
    match last_alert_times st !! type alert with
    | Some last =>
        duration_cast_seconds (now - last) <? alert_interval_seconds config
    | None => false
    end in
  if within_interval then (true, alert_counts st)
  else
    match alert_counts st !! type alert with
    | Some n => (max_alerts_per_hour config <=? n, alert_counts st)
    | None =>
        (max_alerts_per_hour config <=? 0,
         <[ type alert := 0 ]> (alert_counts st))
    end.

(** The counters [updateAlertCounts] builds: per type, the alerts of the
    history that are at most an hour old. *)
Definition count_step (one_hour_ago : Z) (counts : gmap AlertType Z)
    (alert : Alert) : gmap AlertType Z :=
  if one_hour_ago <=? time alert
  then <[ type alert := default 0 (counts !! type alert) + 1 ]> counts
  else counts.

Definition updateAlertCounts (now : Z) (history : list Alert)
    : gmap AlertType Z :=
  foldl (count_step (now - ticks_per_hour)) ∅ history.

(** [cleanupAlertHistory]: the erase-remove of the alerts older than 24
    hours, then the counters anew.  The two functions read the clock
    separately. *)
Definition keep_one_day (now : Z) (history : list Alert) : list Alert :=
  filter (fun a => ~ time a < now - 24 * ticks_per_hour) history.

(** The channels an alert goes out on. *)
Inductive Channel := Email | Slack | Telegram.

Definition channels (config : AlertConfig) (alert : Alert) : list Channel :=
  (if email_enabled config && level_ge (level alert) WARNING
      && negb (String.eqb (email_recipients config) "")
   then [Email] else [])
  ++
  (if slack_enabled config && level_ge (level alert) ERROR
      && negb (String.eqb (slack_webhook config) "")
   then [Slack] else [])
  ++
  (if telegram_enabled config && level_ge (level alert) CRITICAL
      && negb (String.eqb (telegram_bot_token config) ""
               || String.eqb (telegram_chat_id config) "")
   then [Telegram] else []).

(** The four readings of the clock in one [sendAlert], in order: in
    [shouldThrottleAlert], when the alert is recorded, in
    [cleanupAlertHistory] and in [updateAlertCounts]. *)
Record Readings := mkReadings {
  at_check : Z;
  at_record : Z;
  at_cleanup : Z;
  at_count : Z
}.

(** The block of [sendAlert] that records the alert: active alerts,
    history, counter and time of the last alert of the type. *)
Definition record_alert (now : Z) (alert : Alert) (st : State) : State :=
  mkState
    (<[ (type alert, source alert) := alert ]> (active_alerts st))
    (alert_history st ++ [alert])
    (<[ type alert := default 0 (alert_counts st !! type alert) + 1 ]>
       (alert_counts st))
    (<[ type alert := now ]> (last_alert_times st)).

Definition cleanupAlertHistory (now_cleanup now_count : Z) (st : State)
    : State :=
  let history := keep_one_day now_cleanup (alert_history st) in
  mkState (active_alerts st) history (updateAlertCounts now_count history)
          (last_alert_times st).

(** [sendAlert]: the state it leaves and the channels the alert went out
    on.  The callback runs under a [catch] and does not touch the state. *)
Definition sendAlert (config : AlertConfig) (now : Readings)
    (alert : Alert) (st : State) : State * list Channel :=
  let '(throttled, counts) :=
    shouldThrottleAlert config (at_check now) alert st in
  let st1 :=
    mkState (active_alerts st) (alert_history st) counts
            (last_alert_times st) in
  if throttled then (st1, [])
  else
    (cleanupAlertHistory (at_cleanup now) (at_count now)
       (record_alert (at_record now) alert st1),
     channels config alert).

(** [resolveAlert]: the resolved flag is set on the entry just before the
    entry is erased. *)
Definition resolveAlert (type : AlertType) (source : string) (st : State)
    : State :=
  match active_alerts st !! (type, source) with
  | Some _ =>
      mkState (delete (type, source) (active_alerts st)) (alert_history st)
              (alert_counts st) (last_alert_times st)
  | None => st
  end.

Definition getAlertCount (type : AlertType) (st : State) : Z :=
  default 0 (alert_counts st !! type).

(** [getAlertHistory(start_time, end_time)]. *)
Definition getAlertHistory (start_time end_time : Z) (st : State)
    : list Alert :=
  filter (fun a => start_time <= time a /\ time a <= end_time)
         (alert_history st).

(** The alerts of a type that are at most an hour old at [now]. *)
Definition recent_of_type (now : Z) (t : AlertType) (history : list Alert)
    : list Alert :=
  filter (fun a => type a = t /\ now - ticks_per_hour <= time a) history.

End AlertManager.

(** * The websocket client's subscription table
    (src/market/api/websocket_client.cpp)

    The table [callbacks_] maps a stream name to the callback of its
    subscriber.  A callback is a function of the payload; what it does is
    modelled by the list of effects it leaves.  The connection, the rate
    limiter, the socket and the clock are the environment: each operation
    is given the answers they have for it. *)

Module WebsocketClient.

Inductive Method := SUBSCRIBE | UNSUBSCRIBE.

(** The JSON request before it is written out: method, params, id. *)
Record Request := mkRequest {
  method : Method;
  params : list string;
  id : Z
}.

Record Env := mkEnv {
  connected : bool;       (* isConnected() *)
  limiter_grants : bool;  (* subscription_limiter_.tryAcquire() *)
  send_ok : bool;         (* client_.send returns without throwing *)
  unix_time : Z           (* std::time(nullptr) *)
}.

Definition MessageCallback (Effect : Type) : Type := string -> list Effect.

Abbreviation Callbacks Effect := (gmap string (MessageCallback Effect)).

(** The outcome of an operation: what it returns, the table it leaves
    and the requests that went out on the socket. *)
Abbreviation Outcome Effect :=
  (bool * Callbacks Effect * list Request)%type.

Definition returned {Effect : Type} (o : Outcome Effect) : bool := o.1.1.
Definition table {Effect : Type} (o : Outcome Effect) : Callbacks Effect := o.1.2.
Definition requests {Effect : Type} (o : Outcome Effect) : list Request := o.2.

Definition buildSubscriptionMessage (env : Env) (channels : list string)
    : Request :=
  mkRequest SUBSCRIBE channels (unix_time env).

Definition subscribe {Effect : Type} (env : Env) (channel : string)
    (callback : MessageCallback Effect) (callbacks : Callbacks Effect)
    : Outcome Effect :=
  if negb (connected env) then (false, callbacks, [])
  else if negb (limiter_grants env) then (false, callbacks, [])
  else
    let message := buildSubscriptionMessage env [channel] in
    let callbacks' := <[ channel := callback ]> callbacks in
    if send_ok env then (true, callbacks', [message])
    else (false, callbacks', []).

(** The loop [callbacks_[channel] = callback] over the channels. *)
Definition register_all {Effect : Type} (callback : MessageCallback Effect)
    (channels : list string) (callbacks : Callbacks Effect)
    : Callbacks Effect :=
  foldl (fun m channel => <[ channel := callback ]> m) callbacks channels.

Definition subscribeBatch {Effect : Type} (env : Env)
    (channels : list string) (callback : MessageCallback Effect)
    (callbacks : Callbacks Effect) : Outcome Effect :=
  match channels with
  | [] => (true, callbacks, [])
  | _ :: _ =>
      if negb (connected env) then (false, callbacks, [])
      else if negb (limiter_grants env) then (false, callbacks, [])
      else
        let message := buildSubscriptionMessage env channels in
        let callbacks' := register_all callback channels callbacks in
        if send_ok env then (true, callbacks', [message])
        else (false, callbacks', [])
  end.

Definition unsubscribe {Effect : Type} (env : Env) (channel : string)
    (callbacks : Callbacks Effect) : Outcome Effect :=
  if negb (connected env) then (false, callbacks, [])
  else
    let message := mkRequest UNSUBSCRIBE [channel] (unix_time env) in
    let callbacks' := delete channel callbacks in
    if send_ok env then (true, callbacks', [message])
    else (false, callbacks', []).

(** The keys of a [std::map<std::string, _>] in its order of iteration. *)
Definition channels_in_order {Effect : Type}
    (callbacks : Callbacks Effect) : list string :=
  @merge_sort _ Engine.string_le Engine.string_le_dec
    (map fst (map_to_list callbacks)).

(** The callback [resubscribeAll] installs for every channel: it looks
    its argument, the payload, up in the copy of the table. *)
Definition reuse {Effect : Type} (callbacks_copy : Callbacks Effect)
    : MessageCallback Effect :=
  fun data =>
    match callbacks_copy !! data with
    | Some callback => callback data
    | None => []
    end.

Definition resubscribeAll {Effect : Type} (env : Env)
    (callbacks : Callbacks Effect) : Outcome Effect :=
  let callbacks_copy := callbacks in
  if decide (callbacks_copy = ∅) then (true, ∅, [])
  else
    subscribeBatch env (channels_in_order callbacks_copy)
      (reuse callbacks_copy) ∅.

(** The part of [handleMessage] that serves the table: the callback of
    the stream, if there is one, is run on the payload. *)
Definition handleMessage_callback {Effect : Type} (stream data : string)
    (callbacks : Callbacks Effect) : list Effect :=
  match callbacks !! stream with
  | Some callback => callback data
  | None => []
  end.

(** *** Reconnecting

    The fields of the client that [reconnect] reads and writes.
    [running_] is written by [startClientThread] and [stopClientThread]
    only; the model follows the calls of one thread. *)
Record Client (Effect : Type) := mkClient {
  running : bool;
  reconnecting : bool;
  callbacks : Callbacks Effect
}.

Arguments mkClient {Effect} running reconnecting callbacks.
Arguments running {Effect} c.
Arguments reconnecting {Effect} c.
Arguments callbacks {Effect} c.

(** [stopClientThread]: the flag is cleared before the client thread is
    joined.  [join] is what [client_thread_.join()] does where it is
    called: it returns, or throws (a thread that joins itself, as when
    [reconnect] runs from [onClose], gets a [std::system_error]). *)
Definition stopClientThread {Effect : Type} (join : result unit)
    (c : Client Effect) : result unit * Client Effect :=
  if running c
  then (join, mkClient false (reconnecting c) (callbacks c))
  else (ok tt, c).

(** [disconnect]: closing the connection, under its [catch], touches none
    of the fields; then the client thread is stopped. *)
Definition disconnect {Effect : Type} (join : result unit)
    (c : Client Effect) : result unit * Client Effect :=
  stopClientThread join c.

(** One turn of the loop of [reconnect], as the environment has it:
    whether [connect] gets as far as [startClientThread] (the rate
    limiter grants it and the connection object is made), whether the
    connection then opens within the five seconds, and the environment
    [resubscribeAll] meets. *)
Record Attempt := mkAttempt {
  connect_begins : bool;
  connect_ok : bool;
  env_of : Env
}.

Definition connect {Effect : Type} (a : Attempt) (c : Client Effect)
    : bool * Client Effect :=
  if connect_begins a
  then (connect_ok a, mkClient true (reconnecting c) (callbacks c))
  else (false, c).

(** The [while (running_ && attempts < max_reconnect_attempts)] loop:
    what it returns, the client it leaves and the requests sent. *)
Fixpoint reconnect_loop {Effect : Type} (remaining : nat) (attempts : nat)
    (world : nat -> Attempt) (c : Client Effect) (sent : list Request)
    : bool * Client Effect * list Request :=
  match remaining with
  | O => (false, c, sent)
  | S remaining' =>
      if negb (running c) then (false, c, sent)
      else
        let a := world attempts in
        let '(connected, c1) := connect a c in
        if connected then
          let '(ok, callbacks', requests) :=
            resubscribeAll (env_of a) (callbacks c1) in
          let c2 := mkClient (running c1) (reconnecting c1) callbacks' in
          if ok then (true, c2, sent ++ requests)
          else reconnect_loop remaining' (S attempts) world c2
                 (sent ++ requests)
        else reconnect_loop remaining' (S attempts) world c1 sent
  end.

(** [reconnect]: an exception of [disconnect] leaves through it, with
    [reconnecting_] still set. *)
Definition reconnect {Effect : Type} (join : result unit)
    (max_reconnect_attempts : Z) (world : nat -> Attempt)
    (c : Client Effect) : result bool * Client Effect * list Request :=
  if reconnecting c then (ok false, c, [])
  else
    let '(stopped, c1) :=
      disconnect join (mkClient (running c) true (callbacks c)) in
    match stopped with
    | inl e => (throw e, c1, [])
    | inr _ =>
        let '(connected, c2, sent) :=
          reconnect_loop (Z.to_nat max_reconnect_attempts) 0 world c1 [] in
        (ok connected, mkClient (running c2) false (callbacks c2), sent)
    end.

End WebsocketClient.


Module WebsocketSamples.
Import WebsocketClient.

(** A subscriber that records the payloads it is given. *)
Definition recorder : MessageCallback string := fun data => [data].

Definition one_stream : Callbacks string :=
  {[ "btcusdt@markPrice" := recorder ]}.

Definition online : Env := mkEnv true true true 1700000000.
Definition send_fails : Env := mkEnv true true false 1700000000.
Definition limited : Env := mkEnv true false true 1700000000.

(** Every attempt to connect goes through, and so would every
    resubscription. *)
Definition always_connects (attempt : nat) : Attempt :=
  mkAttempt true true online.

(** A client that is running, with one subscription. *)
Definition running_client : Client string := mkClient true false one_stream.

End WebsocketSamples.


(** * Closed positions

    What [closePositions] leaves of a symbol: neither map has it, or
    both hold a size that does not count as a position. *)

Module ClosedPositions.
Import Engine.

Definition flat (size : float) : Prop :=
  PrimFloat.ltb 0 (PrimFloat.abs size) = false.

Definition closed (st : State) (k : string) : Prop :=
  (spot_positions st !! k = None /\ futures_positions st !! k = None) \/
  (exists v w,
     spot_positions st !! k = Some v /\ futures_positions st !! k = Some w /\
     flat v /\ flat w).

Definition selling (sym : string) (o : LegOrder) : Prop :=
  leg_symbol o = sym /\ leg_is_buy o = false.

End ClosedPositions.


(** * Configuration lookup (src/common/config/config.cpp)

    A [Json::Value] is a tree; an object is a map from member names to
    values.  [Config] keeps the path of its file and the root it parsed
    from it. *)

Module CommonConfig.

#[warnings="-register-all"] Inductive Value :=
  | nullValue
  | booleanValue (b : bool)
  | intValue (n : Z)
  | realValue (x : float)
  | stringValue (s : string)
  | arrayValue (items : list Value)
  | objectValue (members : gmap string Value).

Definition isNull (v : Value) : bool :=
  match v with nullValue => true | _ => false end.

Definition isObject (v : Value) : bool :=
  match v with objectValue _ => true | _ => false end.

Record Config := mkConfig {
  config_path : string;
  root : Value
}.

(** The tokens [std::getline(iss, token, '.')] yields until it fails:
    the pieces between the dots; at the end of the input a piece is a
    token only if it has a character. *)
Fixpoint getline_tokens (token : string) (rest : string) : list string :=
  match rest with
  | EmptyString => if String.eqb token "" then [] else [token]
  | String c rest' =>
      if Ascii.eqb c "."%char then token :: getline_tokens "" rest'
      else getline_tokens (token ++ String c "")%string rest'
  end.

(** The [while] loop of [getJsonValue] over the tokens. *)
Fixpoint descend (tokens : list string) (current : Value) : Value :=
  match tokens with
  | [] => current
  | token :: rest =>
      match current with
      | objectValue members =>
          match members !! token with
          | Some v => descend rest v
          | None => nullValue
          end
      | _ => nullValue
      end
  end.

Definition getJsonValue (c : Config) (key : string) : Value :=
  descend (getline_tokens "" key) (root c).

Definition hasKey (c : Config) (key : string) : bool :=
  negb (isNull (getJsonValue c key)).

(** The file system as [getSubConfig] meets it: whether the temporary
    file opens for writing, and the root the new [Config] parses from
    what was written ([None]: the file does not open or does not
    parse, and the constructor throws). *)
Record Files := mkFiles {
  temp_opens : bool;
  read_back : Value -> option Value
}.

(** [getSubConfig]: [None] is the null pointer. *)
Definition getSubConfig (files : Files) (c : Config) (key : string)
    : result (option Config) :=
  let value := getJsonValue c key in
  if isNull value || negb (isObject value) then ok None
  else
    let temp_path := (config_path c ++ "." ++ key ++ ".tmp")%string in
    if negb (temp_opens files) then ok None
    else
      match read_back files value with
      | Some root' => ok (Some (mkConfig temp_path root'))
      | None =>
          throw (RuntimeError
                   ("Failed to load config file: " ++ temp_path)%string)
      end.

(** Whether the last character of a key is the dot. *)
Fixpoint ends_with_dot (key : string) : bool :=
  match key with
  | EmptyString => false
  | String c EmptyString => Ascii.eqb c "."%char
  | String _ rest => ends_with_dot rest
  end.

(** A file system that gives back what was written. *)
Definition faithful_files : Files := mkFiles true Some.

Definition sample_config : Config :=
  mkConfig "config.json"
    (objectValue
       {[ "monitor" :=
            objectValue
              {[ "alerts" :=
                   objectValue {[ "interval_seconds" := intValue 300 ]} ]} ]}).

End CommonConfig.


(** * The monitor's health check and alerts
    (src/monitor/metrics/monitor_service.cpp) *)

Module MonitorService.

(** The fields of [MonitorMetrics], [SystemStatus] and [MonitorConfig]
    that [checkThresholds] and [calculateSystemHealth] read. *)
Record MonitorMetrics := mkMonitorMetrics {
  current_position_size : float;
  current_drawdown : float;
  distance_to_liquidation : float
}.

Record SystemStatus := mkSystemStatus {
  api_connected : bool;
  ws_connected : bool;
  memory_usage : float;
  cpu_usage : float;
  error_rate : float
}.

Record MonitorConfig := mkMonitorConfig {
  memory_threshold : float;
  cpu_threshold : float
}.

(** A call of [triggerAlert]: the source, and the message as the text,
    the number [std::to_string] prints and what follows it. *)
Record Alert := mkAlert {
  alert_source : string;
  alert_text : string;
  alert_number : float;
  alert_unit : string
}.

Definition calculateSystemHealth (status : SystemStatus)
    (config : MonitorConfig) : bool :=
  api_connected status
  && ws_connected status
  && PrimFloat.ltb (memory_usage status) (memory_threshold config)
  && PrimFloat.ltb (cpu_usage status) (cpu_threshold config)
  && PrimFloat.ltb (error_rate status) 0.01.

(** The alerts of one symbol, in the order of the three checks. *)
Definition symbol_alerts (alert_thresholds : gmap string float)
    (symbol : string) (metrics : MonitorMetrics) : list Alert :=
  (match alert_thresholds !! "position_size" with
   | Some limit =>
       if PrimFloat.ltb limit (current_position_size metrics)
       then [mkAlert symbol "Position size exceeded threshold: "
               (current_position_size metrics) ""]
       else []
   | None => []
   end)
  ++
  (match alert_thresholds !! "drawdown" with
   | Some limit =>
       if PrimFloat.ltb limit (current_drawdown metrics)
       then [mkAlert symbol "Drawdown exceeded threshold: "
               (current_drawdown metrics) ""]
       else []
   | None => []
   end)
  ++
  (match alert_thresholds !! "liquidation_distance" with
   | Some limit =>
       if PrimFloat.ltb (distance_to_liquidation metrics) limit
       then [mkAlert symbol "Position too close to liquidation price: "
               (distance_to_liquidation metrics) ""]
       else []
   | None => []
   end).

Definition system_alerts (status : SystemStatus) (config : MonitorConfig)
    : list Alert :=
  (if PrimFloat.ltb (memory_threshold config) (memory_usage status)
   then [mkAlert "System" "Memory usage exceeded threshold: "
           (memory_usage status) "MB"]
   else [])
  ++
  (if PrimFloat.ltb (cpu_threshold config) (cpu_usage status)
   then [mkAlert "System" "CPU usage exceeded threshold: "
           (cpu_usage status) "%"]
   else [])
  ++
  (if PrimFloat.ltb 0.01 (error_rate status)
   then [mkAlert "System" "High error rate detected: "
           (error_rate status) ""]
   else []).

(** The symbols of [metrics_] in the order of iteration. *)
Definition symbols_in_order (metrics : gmap string MonitorMetrics)
    : list (string * MonitorMetrics) :=
  omap (fun symbol => pair symbol <$> metrics !! symbol)
       (@merge_sort _ Engine.string_le Engine.string_le_dec
          (map fst (map_to_list metrics))).

(** [checkThresholds]: the alerts it triggers, in order. *)
Definition checkThresholds (metrics : gmap string MonitorMetrics)
    (alert_thresholds : gmap string float) (status : SystemStatus)
    (config : MonitorConfig) : list Alert :=
  flat_map (fun '(symbol, m) => symbol_alerts alert_thresholds symbol m)
           (symbols_in_order metrics)
  ++ system_alerts status config.

Definition sample_status : SystemStatus :=
  mkSystemStatus true true 512 35 0.001.

Definition sample_config : MonitorConfig := mkMonitorConfig 1000 80.

End MonitorService.


(** * Properties *)

(** ** Enumerations and their names *)

Module ExecutionTypesFacts.
Import ExecutionTypes.

(** Case analysis on every string comparison of a parser. *)
Ltac parser_cases :=
  repeat match goal with
  | |- context [String.eqb ?a ?b] =>
      destruct (String.eqb_spec a b); subst
  end.

Lemma stringToOrderSide_sound s e :
  stringToOrderSide s = ok e -> orderSideToString e = s.
Proof.
  unfold stringToOrderSide, ok, throw. parser_cases;
    intros [= <-] || discriminate; reflexivity.
Qed.

Lemma stringToOrderType_sound s e :
  stringToOrderType s = ok e -> orderTypeToString e = s.
Proof.
  unfold stringToOrderType, ok, throw. parser_cases;
    intros [= <-] || discriminate; reflexivity.
Qed.

Lemma stringToOrderStatus_sound s e :
  stringToOrderStatus s = ok e -> orderStatusToString e = s.
Proof.
  unfold stringToOrderStatus, ok, throw. parser_cases;
    intros [= <-] || discriminate; reflexivity.
Qed.

(** A parser throws nothing but [InvalidArgument]. *)
Lemma stringToOrderSide_error s x :
  stringToOrderSide s = throw x -> exists msg, x = InvalidArgument msg.
Proof.
  unfold stringToOrderSide, ok, throw. parser_cases;
    intros [= <-] || discriminate; eauto.
Qed.

Lemma stringToOrderType_error s x :
  stringToOrderType s = throw x -> exists msg, x = InvalidArgument msg.
Proof.
  unfold stringToOrderType, ok, throw. parser_cases;
    intros [= <-] || discriminate; eauto.
Qed.

Lemma stringToOrderStatus_error s x :
  stringToOrderStatus s = throw x -> exists msg, x = InvalidArgument msg.
Proof.
  unfold stringToOrderStatus, ok, throw. parser_cases;
    intros [= <-] || discriminate; eauto.
Qed.

(** A parser that inverts the printer, is sound, and throws only
    [InvalidArgument] round-trips. *)
Lemma round_trips_intro {E} (to_string : E -> string)
    (of_string : string -> result E) :
  (forall e, of_string (to_string e) = ok e) ->
  (forall s e, of_string s = ok e -> to_string e = s) ->
  (forall s x, of_string s = throw x -> exists msg, x = InvalidArgument msg) ->
  round_trips to_string of_string.
Proof.
  intros Hinv Hsound Herr. split; [exact Hinv|].
  intros s Hs. destruct (of_string s) as [x|e] eqn:Hp.
  - destruct (Herr s x Hp) as [msg ->]. by exists msg.
  - exfalso. apply (Hs e). by apply Hsound.
Qed.

Lemma orderSide_round_trips :
  round_trips orderSideToString stringToOrderSide.
Proof.
  apply round_trips_intro;
    [by intros [] | apply stringToOrderSide_sound
     | apply stringToOrderSide_error].
Qed.

Lemma orderType_round_trips :
  round_trips orderTypeToString stringToOrderType.
Proof.
  apply round_trips_intro;
    [by intros [] | apply stringToOrderType_sound
     | apply stringToOrderType_error].
Qed.

Lemma orderStatus_round_trips :
  round_trips orderStatusToString stringToOrderStatus.
Proof.
  apply round_trips_intro;
    [by intros [] | apply stringToOrderStatus_sound
     | apply stringToOrderStatus_error].
Qed.

(** C9, as stated, fails for the margin type: the one conversion from a
    string to a [MarginType] that the sources contain (in
    [BinanceApi::getOpenPositions]) reads the printed name of [ISOLATED]
    back as [CROSS], and it accepts every string: it never reports an
    error. *)
Lemma margin_type_does_not_round_trip :
  ~ round_trips marginTypeToString
      (fun s => ok (marginTypeOfPositionRisk s)).
Proof.
  intros [Hinv _]. specialize (Hinv ISOLATED). discriminate Hinv.
Qed.

(** C9, amended: order side, order type and order status round-trip
    through their printers and parsers, and an unknown string makes the
    parser throw an invalid-argument exception.  Time-in-force,
    position side and margin type have printers only; these are
    injective.  The margin type read from a position report is [ISOLATED]
    exactly for the lower-case string "isolated" and [CROSS] for every
    other string, so a printed margin type always reads back as
    [CROSS]. *)
Theorem enum_names_round_trip :
  round_trips orderSideToString stringToOrderSide /\
  round_trips orderTypeToString stringToOrderType /\
  round_trips orderStatusToString stringToOrderStatus /\
  (forall a b, timeInForceToString a = timeInForceToString b -> a = b) /\
  (forall a b, positionSideToString a = positionSideToString b -> a = b) /\
  (forall a b, marginTypeToString a = marginTypeToString b -> a = b) /\
  (forall s, marginTypeOfPositionRisk s = ISOLATED <-> s = "isolated") /\
  (forall t, marginTypeOfPositionRisk (marginTypeToString t) = CROSS).
Proof.
  split; [apply orderSide_round_trips|].
  split; [apply orderType_round_trips|].
  split; [apply orderStatus_round_trips|].
  split; [by intros [] []|].
  split; [by intros [] []|].
  split; [by intros [] []|].
  split; [|by intros []].
  intros s. unfold marginTypeOfPositionRisk.
  destruct (String.eqb_spec s "isolated"); split; congruence.
Qed.

End ExecutionTypesFacts.


(** ** The pre-funding window *)

Module WindowFacts.
Import Engine.

Lemma ticks_per_minute_pos : 0 < ticks_per_minute.
Proof. reflexivity. Qed.

(** Whole minutes of a duration, between bounds. *)
Lemma duration_cast_minutes_bounds (d lo hi : Z) :
  0 < lo ->
  (lo <= duration_cast_minutes d <= hi <->
   lo * ticks_per_minute <= d < (hi + 1) * ticks_per_minute).
Proof.
  intros Hlo. unfold duration_cast_minutes.
  pose proof ticks_per_minute_pos as Hpos.
  generalize dependent ticks_per_minute. intros t Ht.
  Z.to_euclidean_division_equations. nia.
Qed.

Lemma in_window_spec (params : Params) (now : Z) (instrument : InstrumentInfo) :
  in_window params now instrument = true <->
  0 < duration_cast_minutes (next_funding_time instrument - now)
    <= pre_funding_minutes params.
Proof.
  unfold in_window. rewrite andb_true_iff, Z.leb_le, Z.ltb_lt. lia.
Qed.

Lemma window_scan_exists (params : Params) (now : Z)
    (instruments : list InstrumentInfo) :
  window_scan params now instruments = true <->
  exists instrument, instrument ∈ instruments /\
    in_window params now instrument = true.
Proof.
  induction instruments as [|i rest IH]; simpl.
  - split; [discriminate|]. intros (? & Hin & _). by apply elem_of_nil in Hin.
  - destruct (in_window params now i) eqn:Hi.
    + split; [|done]. intros _. exists i. split; [left|done].
    + rewrite IH. split.
      * intros (j & Hj & Hw). exists j. split; [by right|done].
      * intros (j & Hj & Hw). apply elem_of_cons in Hj as [->|Hj].
        -- congruence.
        -- by exists j.
Qed.

(** C4, as stated, fails in both directions below the minute: with the
    default 60 minutes, a settlement 30 seconds ahead lies inside
    (0, 60 min] and is classified out of window, and a settlement 60
    minutes and 30 seconds ahead lies outside and is classified in
    window. *)
Lemma window_is_in_whole_minutes :
  (0 < 30 * ticks_per_second - 0
     <= pre_funding_minutes default_params * ticks_per_minute /\
   in_window default_params 0
     (Samples.instrument_at (30 * ticks_per_second)) = false) /\
  (~ (60 * ticks_per_minute + 30 * ticks_per_second - 0
        <= pre_funding_minutes default_params * ticks_per_minute) /\
   in_window default_params 0
     (Samples.instrument_at (60 * ticks_per_minute + 30 * ticks_per_second))
   = true).
Proof.
  repeat split; try reflexivity; vm_compute; congruence.
Qed.

(** C4, amended: the time to funding is first cut down to whole minutes
    (rounding towards zero), and a snapshot is in window iff that number
    of minutes is positive and at most [pre_funding_minutes]; that is, iff
    the settlement is at least one full minute and less than
    [pre_funding_minutes + 1] minutes ahead.  A time to funding of exactly
    [pre_funding_minutes] minutes is in window (when that is at least 1),
    any time to funding under one minute, 0 included, is out of window, and
    the engine is in window iff one of its active instruments is. *)
Theorem in_window_whole_minutes :
  (forall params now instrument,
     in_window params now instrument = true <->
     ticks_per_minute <= next_funding_time instrument - now
       < (pre_funding_minutes params + 1) * ticks_per_minute) /\
  (forall params now symbol spot futures rate,
     in_window params now
       (mkInstrumentInfo symbol spot futures rate
          (now + pre_funding_minutes params * ticks_per_minute))
     = (1 <=? pre_funding_minutes params)) /\
  (forall params now symbol spot futures rate d,
     in_window params now
       (mkInstrumentInfo symbol spot futures rate
          (now + Z.min d (ticks_per_minute - 1)))
     = false) /\
  (forall params now st,
     checkTradingWindow params now st = true <->
     exists instrument, instrument ∈ active_instruments st /\
       in_window params now instrument = true).
Proof.
  assert (Hiff : forall params now instrument,
     in_window params now instrument = true <->
     ticks_per_minute <= next_funding_time instrument - now
       < (pre_funding_minutes params + 1) * ticks_per_minute).
  { intros params now instrument. rewrite in_window_spec.
    pose proof (duration_cast_minutes_bounds
                  (next_funding_time instrument - now) 1
                  (pre_funding_minutes params)) as H.
    lia. }
  split; [exact Hiff|]. split; [|split].
  - intros params now symbol spot futures rate.
    destruct (1 <=? pre_funding_minutes params) eqn:Hp.
    + apply Hiff. simpl. apply Z.leb_le in Hp.
      pose proof ticks_per_minute_pos. nia.
    + apply not_true_is_false. intros Hw. apply Hiff in Hw. simpl in Hw.
      apply Z.leb_gt in Hp. pose proof ticks_per_minute_pos. nia.
  - intros params now symbol spot futures rate d.
    apply not_true_is_false. intros Hw. apply Hiff in Hw. simpl in Hw. lia.
  - intros params now st. apply window_scan_exists.
Qed.

End WindowFacts.


(** ** The retry policy of the adapter *)

Module BinanceApiFacts.
Import BinanceApi.

Section Retry.
Context {T : Type}.
Variable cfg : RetryConfig.

Lemma shouldRetry_true (e : exn) (n : nat) :
  extractStatusCode (what e) ∈ retriable_status_codes cfg ->
  Z.of_nat n < max_retries cfg ->
  shouldRetry cfg (extractStatusCode (what e)) n = true.
Proof.
  intros Hin Hn. unfold shouldRetry.
  destruct (max_retries cfg <=? Z.of_nat n) eqn:Hle.
  - apply Z.leb_le in Hle. lia.
  - by apply bool_decide_eq_true.
Qed.

Lemma shouldRetry_false (func : nat -> result T) (e : exn) (n : nat) :
  func n = throw e ->
  ~ retry_granted cfg func n ->
  shouldRetry cfg (extractStatusCode (what e)) n = false.
Proof.
  intros Hf Hno. unfold shouldRetry.
  destruct (max_retries cfg <=? Z.of_nat n) eqn:Hle; [done|].
  apply bool_decide_eq_false. intros Hin. apply Hno. split.
  - exists e. by split.
  - apply Z.leb_gt in Hle. lia.
Qed.

(** The loop, started at call [n], goes on for as long as retries are
    granted and ends with the outcome of the first call after which none
    is: the sleeps are the successive delays. *)
Lemma retry_loop_stops (func : nat -> result T) (k : nat) :
  forall (fuel n : nat) (delay_ms : Z) (slept : list Z),
    (k < fuel)%nat ->
    (forall i, (i < k)%nat -> retry_granted cfg func (n + i)) ->
    ~ retry_granted cfg func (n + k) ->
    retry_loop cfg fuel func n delay_ms slept
    = Some (func (n + k)%nat, slept ++ backoff_delays cfg k delay_ms).
Proof.
  induction k as [|k IH]; intros fuel n delay_ms slept Hfuel Hgo Hstop.
  - destruct fuel as [|fuel]; [lia|]. simpl.
    rewrite Nat.add_0_r in *. rewrite app_nil_r.
    destruct (func n) as [e|v] eqn:Hf; [|done].
    by rewrite (shouldRetry_false func e n Hf Hstop).
  - destruct fuel as [|fuel]; [lia|]. simpl.
    destruct (Hgo 0%nat ltac:(lia)) as [(e & Hf & Hin) Hn].
    rewrite Nat.add_0_r in Hf, Hn. rewrite Hf.
    unfold throw at 1. rewrite (shouldRetry_true e n Hin Hn). simpl.
    rewrite (IH fuel (S n) (next_delay cfg delay_ms) (slept ++ [delay_ms])).
    + by rewrite <- app_assoc, <- Nat.add_succ_comm.
    + lia.
    + intros i Hi. replace (S n + i)%nat with (n + S i)%nat by lia.
      apply Hgo. lia.
    + by replace (S n + k)%nat with (n + S k)%nat by lia.
Qed.

(** No retry is granted once [max_retries] calls have failed, so the
    fuel of [executeWithRetry] is never used up. *)
Lemma executeWithRetry_stops (func : nat -> result T) (k : nat) :
  (forall i, (i < k)%nat -> retry_granted cfg func i) ->
  ~ retry_granted cfg func k ->
  executeWithRetry cfg func
  = Some (func k, backoff_delays cfg k (retry_delay_ms cfg)).
Proof.
  intros Hgo Hstop. unfold executeWithRetry.
  apply (retry_loop_stops func k _ 0%nat); [|done|done].
  destruct k as [|k]; [lia|].
  destruct (Hgo k ltac:(lia)) as [_ Hk]. lia.
Qed.

(** The loop returns whatever the closure does: the fuel is enough. *)
Lemma retry_loop_total (func : nat -> result T) :
  forall (fuel n : nat) (delay_ms : Z) (slept : list Z),
    (Z.to_nat (max_retries cfg) - n < fuel)%nat ->
    is_Some (retry_loop cfg fuel func n delay_ms slept).
Proof.
  induction fuel as [|fuel IH]; intros n delay_ms slept Hfuel; [lia|].
  simpl. destruct (func n) as [e|v]; [|by eexists].
  unfold shouldRetry.
  destruct (max_retries cfg <=? Z.of_nat n) eqn:Hle; [by eexists|].
  destruct (bool_decide _); simpl; [|by eexists].
  apply IH. apply Z.leb_gt in Hle. lia.
Qed.

Lemma executeWithRetry_total (func : nat -> result T) :
  is_Some (executeWithRetry cfg func).
Proof. apply retry_loop_total. lia. Qed.

Lemma backoff_delays_length (n : nat) (delay_ms : Z) :
  length (backoff_delays cfg n delay_ms) = n.
Proof.
  revert delay_ms. induction n as [|n IH]; intros d; simpl; [done|].
  by rewrite IH.
Qed.

Lemma backoff_delays_step (n : nat) (delay_ms : Z) (i : nat) (a b : Z) :
  backoff_delays cfg n delay_ms !! i = Some a ->
  backoff_delays cfg n delay_ms !! S i = Some b ->
  b = next_delay cfg a.
Proof.
  revert delay_ms i. induction n as [|n IH]; intros d i; simpl; [done|].
  destruct i as [|i]; simpl.
  - intros [= <-]. destruct n as [|n]; simpl; [done|]. by intros [= <-].
  - apply IH.
Qed.

End Retry.

(** C5, on the failing input: the exchange answers an order with HTTP
    429 and Binance's error object.  [makeRequest] never reads the status
    line; the exception carries the code of the error object, -1003,
    which is none of 408, 429, 500, 502, 503 and 504: the failure
    surfaces after the first attempt, with no retry and no sleep.  The
    same holds of the mark-price query.  The retry is made only for a
    failure whose message reads like a status code of the list, as that
    of [Samples.always_429] does: three retries after sleeps of 1 s, 2 s
    and 4 s. *)
Theorem http_429_is_not_retried :
  placeOrder default_retry_config Samples.exchange_http_429
    Samples.stop_limit_request
  = Some (throw (RuntimeError
                   "API error - Code: -1003, Message: Too many requests."),
          []) /\
  getMarkPrice default_retry_config Samples.exchange_http_429 "BTCUSDT"
  = Some (throw (RuntimeError
                   "API error - Code: -1003, Message: Too many requests."),
          []) /\
  extractStatusCode "API error - Code: -1003, Message: Too many requests."
  = -1003 /\
  executeWithRetry default_retry_config Samples.always_429
  = Some (throw (RuntimeError "HTTP 429 Too Many Requests"),
          [1000; 2000; 4000]).
Proof. repeat split; vm_compute; reflexivity. Qed.

(** A closure that fails twice with a retriable code and then returns:
    two sleeps, then the value. *)
Lemma executeWithRetry_third_time_lucky :
  BinanceApi.executeWithRetry BinanceApi.default_retry_config
    Samples.third_time_lucky
  = Some (ok "done", [1000; 2000]).
Proof. vm_compute. reflexivity. Qed.

(** The message of [validateSymbol] carries no status code. *)
Lemma empty_symbol_not_retried (cfg : BinanceApi.RetryConfig) :
  0 ∉ BinanceApi.retriable_status_codes cfg ->
  forall n,
    BinanceApi.shouldRetry cfg
      (BinanceApi.extractStatusCode "Symbol cannot be empty") n = false.
Proof.
  intros Hout n. unfold BinanceApi.shouldRetry.
  destruct (_ <=? _); [done|]. by apply bool_decide_eq_false.
Qed.

Lemma zero_not_retriable : 0 ∉ BinanceApi.retriable_codes.
Proof. apply (bool_decide_unpack _). vm_compute. exact I. Qed.

(** With an empty symbol the adapter fails before any request is made,
    and the failure is not retried. *)
Lemma getOrderStatus_empty_symbol (cfg : BinanceApi.RetryConfig)
    (ex : BinanceApi.Exchange) (orderId : string) :
  0 ∉ BinanceApi.retriable_status_codes cfg ->
  BinanceApi.getOrderStatus cfg ex "" orderId
  = Some (throw (InvalidArgument "Symbol cannot be empty"), []).
Proof.
  intros Hout. unfold BinanceApi.getOrderStatus, BinanceApi.executeWithRetry.
  simpl. by rewrite (empty_symbol_not_retried cfg Hout).
Qed.

End BinanceApiFacts.

(** ** The order manager *)

Module OrderManagerFacts.
Import ExecutionTypes OrderManager.

(** [updateOrderCache] with a terminal record evicts the id. *)
Lemma updateOrderCache_terminal (order : OrderInfo)
    (active_orders : OrderCache) :
  is_terminal (status order) = true ->
  updateOrderCache order active_orders = delete (order_id order) active_orders.
Proof.
  intros Ht. unfold updateOrderCache, status_is.
  destruct (status order); try discriminate Ht; reflexivity.
Qed.

Lemma updateOrderCache_active (order : OrderInfo)
    (active_orders : OrderCache) :
  is_terminal (status order) = false ->
  updateOrderCache order active_orders
  = <[ order_id order := order ]> active_orders.
Proof.
  intros Ht. unfold updateOrderCache, status_is.
  destruct (status order); try discriminate Ht; reflexivity.
Qed.

Lemma updateOrderCache_evicts (order : OrderInfo)
    (active_orders : OrderCache) :
  is_terminal (status order) = true ->
  updateOrderCache order active_orders !! order_id order = None.
Proof.
  intros Ht. rewrite updateOrderCache_terminal by done.
  apply lookup_delete_eq.
Qed.

(** Stream updates and placements keep terminal records out of the
    index. *)
Lemma updateOrderCache_no_terminal (order : OrderInfo)
    (active_orders : OrderCache) :
  no_terminal_entry active_orders ->
  no_terminal_entry (updateOrderCache order active_orders).
Proof.
  intros Hinv id o. destruct (is_terminal (status order)) eqn:Ht.
  - rewrite updateOrderCache_terminal by done.
    intros Hl. apply lookup_delete_Some in Hl as [_ Hl]. by eapply Hinv.
  - rewrite updateOrderCache_active by done.
    intros Hl. apply lookup_insert_Some in Hl as [[_ <-]|[_ Hl]]; [done|].
    by eapply Hinv.
Qed.

(** A successful [cancelOrder] of an indexed order leaves the record in
    the index, with the status [CANCELED]. *)
Lemma cancelOrder_keeps_record (api : BinanceApi.RetryConfig)
    (ex : BinanceApi.Exchange) (symbol orderId : string)
    (active_orders active_orders' : OrderCache) (o : OrderInfo) :
  active_orders !! orderId = Some o ->
  cancelOrder api ex symbol orderId active_orders
  = Some (true, active_orders') ->
  active_orders' !! orderId = Some (set_status CANCELED o).
Proof.
  intros Hl. unfold cancelOrder. rewrite Hl.
  destruct (BinanceApi.cancelOrder api ex symbol orderId) as [[r s]|];
    [|discriminate].
  simpl. destruct r as [e|[|]]; intros [= <-].
  apply lookup_insert_eq.
Qed.

(** C2 at the failing input: the index holds the order "1" with status
    [NEW]; the exchange accepts the cancellation; [cancelOrder] returns
    [true] and the index still holds "1", now with the terminal status
    [CANCELED], whereas the same transition delivered through
    [updateOrderCache] removes it. *)
Lemma cancelOrder_leaves_terminal_record :
  no_terminal_entry {[ "1" := Samples.new_order ]} /\
  cancelOrder BinanceApi.default_retry_config Samples.exchange_ok
    "BTCUSDT" "1" {[ "1" := Samples.new_order ]}
  = Some (true, {[ "1" := set_status CANCELED Samples.new_order ]}) /\
  ~ no_terminal_entry {[ "1" := set_status CANCELED Samples.new_order ]} /\
  updateOrderCache (set_status CANCELED Samples.new_order)
    {[ "1" := Samples.new_order ]} !! "1" = None.
Proof.
  split; [|split; [|split]].
  - intros id o Hl. apply lookup_singleton_Some in Hl as [_ <-]. done.
  - vm_compute. reflexivity.
  - intros Hinv.
    specialize (Hinv "1" (set_status CANCELED Samples.new_order)
                  (lookup_singleton_eq _ _)).
    discriminate Hinv.
  - by apply (updateOrderCache_evicts (set_status CANCELED Samples.new_order)).
Qed.

(** A poll that finds the id absent from the index ends the wait with
    [false], with no further sleep. *)
Lemma wait_loop_cache_miss (api : BinanceApi.RetryConfig)
    (caches : nat -> OrderCache) (exs : nat -> BinanceApi.Exchange)
    (elapsed : nat -> Z) (orderId : string) (timeout_ms : Z)
    (fuel n : nat) (slept : list Z) :
  0 ∉ BinanceApi.retriable_status_codes api ->
  caches n !! orderId = None ->
  wait_loop api caches exs elapsed orderId timeout_ms (S fuel) n slept
  = Some (false, slept).
Proof.
  intros Hout Hmiss. simpl. unfold getOrderStatus. rewrite Hmiss.
  rewrite BinanceApiFacts.getOrderStatus_empty_symbol by done.
  simpl. by rewrite app_nil_r.
Qed.

(** C10: when the id is not in the index, [waitForOrderFill] returns
    [false] at its first poll, without any sleep and whatever the timeout,
    the clock and the exchange are: the adapter is asked with an empty
    symbol, [validateSymbol] throws, the exception is not retried and the
    wait takes it for a failure.  This is what happens to an order that
    was filled: the FILLED update removed it from the index. *)
Theorem waitForOrderFill_cache_miss (mr d : Z) (m : float)
    (exs : nat -> BinanceApi.Exchange) (elapsed : nat -> Z)
    (orderId : string) (timeout_ms : Z) (fuel : nat) :
  (forall ex,
     BinanceApi.getOrderStatus (BinanceApi.loadRetryConfig mr d m) ex
       "" orderId
     = Some (throw (InvalidArgument "Symbol cannot be empty"), [])) /\
  (forall caches : nat -> OrderCache,
     caches 0%nat !! orderId = None ->
     waitForOrderFill (BinanceApi.loadRetryConfig mr d m) caches exs elapsed
       orderId timeout_ms (S fuel)
     = Some (false, [])) /\
  (forall (caches : nat -> OrderCache) (active_orders : OrderCache)
          (update : OrderInfo),
     order_id update = orderId ->
     status update = FILLED ->
     caches 0%nat = handleOrderUpdate update active_orders ->
     waitForOrderFill (BinanceApi.loadRetryConfig mr d m) caches exs elapsed
       orderId timeout_ms (S fuel)
     = Some (false, [])).
Proof.
  assert (Hmiss : forall caches : nat -> OrderCache,
     caches 0%nat !! orderId = None ->
     waitForOrderFill (BinanceApi.loadRetryConfig mr d m) caches exs elapsed
       orderId timeout_ms (S fuel)
     = Some (false, [])).
  { intros caches Hnone. unfold waitForOrderFill.
    apply wait_loop_cache_miss; [apply BinanceApiFacts.zero_not_retriable|done]. }
  split; [|split; [exact Hmiss|]].
  - intros ex. apply BinanceApiFacts.getOrderStatus_empty_symbol.
    apply BinanceApiFacts.zero_not_retriable.
  - intros caches active_orders update <- Hfilled Hc. apply Hmiss.
    rewrite Hc. unfold handleOrderUpdate.
    apply updateOrderCache_evicts. by rewrite Hfilled.
Qed.

(** The theorem on an order that was placed, then filled: the wait that
    follows reports a failure although the exchange would answer FILLED
    and there is an hour left. *)
Lemma waitForOrderFill_cache_miss_witness :
  waitForOrderFill BinanceApi.default_retry_config
    (fun _ => handleOrderUpdate (set_status FILLED Samples.new_order)
                {[ "1" := Samples.new_order ]})
    (fun _ => Samples.exchange_ok) (fun _ => 0) "1" 3600000 1
  = Some (false, []).
Proof.
  destruct (waitForOrderFill_cache_miss 3 1000 2%float
              (fun _ => Samples.exchange_ok) (fun _ => 0) "1" 3600000 0)
    as (_ & _ & Hfilled).
  exact (Hfilled _ {[ "1" := Samples.new_order ]}
           (set_status FILLED Samples.new_order)
           eq_refl eq_refl eq_refl).
Defined.

(** For comparison: while the order is in the index the wait polls until
    the timeout. *)
Lemma waitForOrderFill_indexed_times_out :
  waitForOrderFill BinanceApi.default_retry_config
    (fun _ => {[ "1" := Samples.new_order ]})
    (fun _ => Samples.exchange_ok) (fun n => 100 * Z.of_nat n) "1" 300 10
  = Some (false, [100; 100; 100]).
Proof. vm_compute. reflexivity. Qed.

(** *** Placement *)

Lemma adjustRequest_type (cfg : Config) (request : OrderRequest)
    (adjusted_price : float) :
  req_type (adjustRequest cfg request adjusted_price)
  = if use_post_only cfg && negb (bool_decide (req_type request = MARKET))
    then POST_ONLY else req_type request.
Proof.
  unfold adjustRequest.
  destruct (bool_decide (req_type request = MARKET)), (use_post_only cfg);
    reflexivity.
Qed.

(** C6, as stated, fails: with [use_post_only] enabled a STOP_LIMIT
    request is handed to the exchange as POST_ONLY. *)
Lemma stop_limit_is_promoted :
  use_post_only default_config = true /\
  req_type Samples.stop_limit_request = STOP_LIMIT /\
  exists r active_orders' sent,
    placeOrder default_config BinanceApi.default_retry_config
      Samples.exchange_ok Samples.stop_limit_request ∅
    = Some (r, active_orders', [sent]) /\
    req_type sent = POST_ONLY.
Proof.
  split; [reflexivity|]. split; [reflexivity|].
  eexists _, _, _. split; [vm_compute; reflexivity|reflexivity].
Qed.

(** C6, amended: when a valid request is placed and the mark price is
    obtained, exactly one request is handed to the exchange; with
    [use_post_only] enabled its type is POST_ONLY iff the requested type
    was not MARKET (LIMIT, STOP_MARKET, STOP_LIMIT, TAKE_PROFIT and
    LIQUIDATION are all promoted), and a MARKET request keeps its type;
    with [use_post_only] disabled the type is the requested one. *)
Theorem placeOrder_post_only (cfg : Config) (api : BinanceApi.RetryConfig)
    (ex : BinanceApi.Exchange) (request : OrderRequest)
    (active_orders : OrderCache) (mark_price : float) (slept : list Z) :
  validateOrderRequest request = true ->
  BinanceApi.getMarkPrice api ex (req_symbol request)
  = Some (ok mark_price, slept) ->
  exists r active_orders' sent,
    placeOrder cfg api ex request active_orders
    = Some (r, active_orders', [sent]) /\
    (use_post_only cfg = true ->
       (req_type sent = POST_ONLY <-> req_type request <> MARKET) /\
       (req_type request = MARKET -> req_type sent = MARKET)) /\
    (use_post_only cfg = false -> req_type sent = req_type request).
Proof.
  intros Hvalid Hprice. unfold placeOrder. rewrite Hvalid, Hprice. simpl.
  set (sent := adjustRequest cfg request _).
  destruct (BinanceApiFacts.executeWithRetry_total api
              (fun n =>
                 if negb (BinanceApi.ex_order_limiter ex n)
                 then throw (RuntimeError "Order rate limit exceeded")
                 else do_ BinanceApi.validateSymbol (req_symbol sent);
                      BinanceApi.ex_place_order ex sent n))
    as [[ro s] Hplace].
  unfold BinanceApi.placeOrder. rewrite Hplace. simpl.
  assert (Htype := adjustRequest_type cfg request
                     (calculateSlippagePrice cfg (req_symbol request)
                        (req_side request) mark_price)).
  fold sent in Htype.
  assert (Hprops :
    (use_post_only cfg = true ->
       (req_type sent = POST_ONLY <-> req_type request <> MARKET) /\
       (req_type request = MARKET -> req_type sent = MARKET)) /\
    (use_post_only cfg = false -> req_type sent = req_type request)).
  { rewrite Htype. split; intros ->; simpl; [|done].
    destruct (req_type request); simpl; split; try done;
      split; congruence. }
  destruct ro as [e|id]; eexists _, _, sent; (split; [reflexivity|exact Hprops]).
Qed.

(** The theorem on a take-profit request at the default configuration. *)
Lemma placeOrder_post_only_witness :
  exists r active_orders' sent,
    placeOrder default_config BinanceApi.default_retry_config
      Samples.exchange_ok
      (mkOrderRequest "BTCUSDT" SELL TAKE_PROFIT 1 52000 0 GTC false false) ∅
    = Some (r, active_orders', [sent]) /\
    req_type sent = POST_ONLY.
Proof.
  destruct (placeOrder_post_only default_config
              BinanceApi.default_retry_config Samples.exchange_ok
              (mkOrderRequest "BTCUSDT" SELL TAKE_PROFIT 1 52000 0 GTC
                 false false)
              ∅ 50000%float [] eq_refl eq_refl)
    as (r & m' & sent & Hplace & Hon & _).
  exists r, m', sent. split; [exact Hplace|].
  apply (proj1 (Hon eq_refl)). discriminate.
Defined.

End OrderManagerFacts.

(** ** The risk manager *)

Module RiskManagerFacts.
Import RiskManager.

(** In emergency mode the veto is recorded as a position-limit event
    before the refusal. *)
Lemma checkNewPosition_emergency_state (h : Helpers) (now : Clock)
    (symbol : string) (size funding_rate : float) (st : State) :
  emergency_mode st = true ->
  checkNewPosition h now symbol size funding_rate st
  = (false, recordRiskEvent h now POSITION_LIMIT_BREACH symbol size 0 st).
Proof. intros He. unfold checkNewPosition. by rewrite He. Qed.

(** C7: while [emergency_mode_] is set, [checkNewPosition] returns
    [false] for every symbol, size and funding rate, whatever the limits,
    the open positions and the other checks would say. *)
Theorem checkNewPosition_emergency (h : Helpers) (now : Clock)
    (symbol : string) (size funding_rate : float) (st : State) :
  emergency_mode st = true ->
  fst (checkNewPosition h now symbol size funding_rate st) = false.
Proof.
  intros He. by rewrite checkNewPosition_emergency_state.
Qed.

(** The theorem on a request that the manager approves when the flag is
    clear (see [checkNewPosition_without_emergency]). *)
Lemma checkNewPosition_emergency_witness :
  fst (checkNewPosition Samples.lenient_helpers (mkClock 0 0) "BTCUSDT" 0.01 0.001
         (Samples.risk_state true)) = false.
Proof.
  exact (checkNewPosition_emergency Samples.lenient_helpers (mkClock 0 0) "BTCUSDT"
           0.01 0.001 (Samples.risk_state true) eq_refl).
Defined.

(** The same request, with the flag clear, is approved: the refusal above
    is the flag's doing. *)
Lemma checkNewPosition_without_emergency :
  fst (checkNewPosition Samples.lenient_helpers (mkClock 0 0) "BTCUSDT" 0.01 0.001
         (Samples.risk_state false)) = true.
Proof. vm_compute. reflexivity. Qed.

(** [checkNewPosition] never sets or clears the flag itself, as long as
    the emergency handler does not. *)
Lemma recordRiskEvent_keeps_flag (h : Helpers) (now : Clock)
    (type : RiskEventType) (symbol : string) (current threshold : float)
    (st : State) :
  shouldTriggerEmergency h type = false ->
  emergency_mode (recordRiskEvent h now type symbol current threshold st)
  = emergency_mode st.
Proof. intros Hno. unfold recordRiskEvent. by rewrite Hno. Qed.

End RiskManagerFacts.

(** ** Order on [double]

    The comparison [<] of binary64, through its specification on
    [spec_float]: it is irreflexive and transitive (NaN is below and above
    nothing). *)

Module FloatFacts.

Lemma SFltb_irrefl (a : spec_float) : SFltb a a = false.
Proof.
  unfold SFltb, SFcompare.
  destruct a as [[]|[]| |[] m e]; try reflexivity;
    rewrite Z.compare_refl;
    change (Pos.compare_cont Eq m m) with (Pos.compare m m);
    rewrite Pos.compare_refl; reflexivity.
Qed.

Lemma SFltb_trans (a b c : spec_float) :
  SFltb a b = true -> SFltb b c = true -> SFltb a c = true.
Proof.
  unfold SFltb, SFcompare.
  destruct a as [[]|[]| |[] ma ea], b as [[]|[]| |[] mb eb],
           c as [[]|[]| |[] mc ec];
    try reflexivity; try discriminate;
    change (Pos.compare_cont Eq ?x ?y) with (Pos.compare x y);
    destruct (Z.compare_spec ea eb), (Z.compare_spec eb ec),
             (Z.compare_spec ea ec);
    try reflexivity; try discriminate; try lia; subst;
    destruct (Pos.compare_spec ma mb), (Pos.compare_spec mb mc),
             (Pos.compare_spec ma mc);
    simpl; try reflexivity; try discriminate; try lia.
Qed.

Lemma ltb_irrefl (x : float) : PrimFloat.ltb x x = false.
Proof. rewrite FloatAxioms.ltb_spec. apply SFltb_irrefl. Qed.

Lemma ltb_trans (x y z : float) :
  PrimFloat.ltb x y = true -> PrimFloat.ltb y z = true ->
  PrimFloat.ltb x z = true.
Proof. rewrite !FloatAxioms.ltb_spec. apply SFltb_trans. Qed.

Lemma ltb_asym (x y : float) :
  PrimFloat.ltb x y = true -> PrimFloat.ltb y x = false.
Proof.
  intros Hxy. destruct (PrimFloat.ltb y x) eqn:Hyx; [|done].
  by rewrite <- (ltb_irrefl x), (ltb_trans x y x).
Qed.

(** A size that is below or above zero has a positive magnitude. *)
Lemma abs_pos_of_ltb (x : float) :
  PrimFloat.ltb 0 x = true \/ PrimFloat.ltb x 0 = true ->
  PrimFloat.ltb 0 (PrimFloat.abs x) = true.
Proof.
  rewrite !FloatAxioms.ltb_spec, FloatAxioms.abs_spec.
  change (Prim2SF 0) with (S754_zero false).
  destruct (Prim2SF x) as [[]|[]| |[] m e]; simpl; intros [H|H];
    done.
Qed.

End FloatFacts.

(** ** Rebalancing, closing and drawdown *)

Module EngineFacts.
Import Engine.

(** *** Rebalancing *)

(** C3, as stated, fails: with legs 0.01 and -0.007 the imbalance does
    not exceed the default tolerance 0.01, and [balancePositions] issues
    no order at all. *)
Lemma balancePositions_within_tolerance_no_order :
  PrimFloat.ltb (position_imbalance_tolerance default_params)
    (PrimFloat.abs (PrimFloat.add 0.01 (-0.007))) = false /\
  snd (balancePositions default_params "BTCUSDT"
         (Samples.pair_state 0.01 (-0.007))) = [].
Proof. split; vm_compute; reflexivity. Qed.

(** C3, amended: [balancePositions] issues an order only when the
    imbalance [|spot + futures|] exceeds the tolerance; it then issues
    exactly one order, of size [imbalance / 2]: a spot SELL when
    [spot > -futures], a futures BUY otherwise.  With legs 0.01 and -0.007
    it issues none under the default tolerance 0.01, and a spot SELL of
    0.0015 under a tolerance of 0.001. *)
Theorem balancePositions_orders (params : Params) (symbol : string)
    (st : State) (spot futures : float) :
  fst (map_index symbol (spot_positions st)) = spot ->
  fst (map_index symbol (futures_positions st)) = futures ->
  let imbalance := PrimFloat.abs (PrimFloat.add spot futures) in
  let exceeds :=
    PrimFloat.ltb (position_imbalance_tolerance params) imbalance in
  let spot_heavy := PrimFloat.ltb (PrimFloat.opp futures) spot in
  (exceeds = false -> snd (balancePositions params symbol st) = []) /\
  (exceeds = true -> spot_heavy = true ->
     snd (balancePositions params symbol st)
     = [mkLegOrder Single symbol (PrimFloat.div imbalance 2) true false]) /\
  (exceeds = true -> spot_heavy = false ->
     snd (balancePositions params symbol st)
     = [mkLegOrder Single symbol (PrimFloat.div imbalance 2) false true]).
Proof.
  intros Hs Hf imbalance exceeds spot_heavy.
  subst imbalance exceeds spot_heavy. unfold balancePositions.
  destruct (map_index symbol (spot_positions st)) as [sp spot'].
  destruct (map_index symbol (futures_positions st)) as [fu futures'].
  simpl in Hs, Hf. subst sp fu.
  repeat split; intros He; rewrite He; try done.
  - intros Hh. by rewrite Hh.
  - intros Hh. by rewrite Hh.
Qed.

(** The theorem on the legs 0.01 and -0.007 under a tolerance of 0.001:
    one spot SELL of 0.0015. *)
Lemma balancePositions_orders_witness :
  snd (balancePositions (mkParams 60 true 3 0.02 0.001) "BTCUSDT"
         (Samples.pair_state 0.01 (-0.007)))
  = [mkLegOrder Single "BTCUSDT" 0.0015 true false].
Proof.
  destruct (balancePositions_orders (mkParams 60 true 3 0.02 0.001)
              "BTCUSDT" (Samples.pair_state 0.01 (-0.007))
              0.01 (-0.007) eq_refl eq_refl)
    as (_ & Hspot & _).
  exact (Hspot eq_refl eq_refl).
Defined.

(** *** Closing *)

(** When the orders of a symbol run to completion, both entries of the
    symbol are erased, whatever orders were issued. *)
Lemma close_one_completes (params : Params) (sym : string) (st : State)
    (spot futures : float) :
  spot_positions st !! sym = Some spot ->
  futures_positions st !! sym = Some futures ->
  PrimFloat.ltb 0 (PrimFloat.abs spot)
    || PrimFloat.ltb 0 (PrimFloat.abs futures) = true ->
  close_one params Samples.run_ok sym st
  = (ok tt,
     with_positions (delete sym (spot_positions st))
                    (delete sym (futures_positions st)) st,
     closing_orders params sym spot futures).
Proof.
  intros Hs Hf Hopen. unfold close_one, map_index. rewrite Hs, Hf, Hopen.
  assert (Hissue : forall l, issue Samples.run_ok l = (ok tt, l)).
  { induction l as [|o l IH]; simpl; [done|]. by rewrite IH. }
  rewrite Hissue. by destruct st.
Qed.

(** A leg whose size is not positive gets no closing order. *)
Lemma closing_orders_short_futures (params : Params) (sym : string)
    (spot futures : float) :
  PrimFloat.ltb 0 spot = true ->
  PrimFloat.ltb 0 futures = false ->
  closing_orders params sym spot futures
  = [mkLegOrder (if use_twap params then Twap else Single) sym
       (PrimFloat.abs spot) true false].
Proof. intros Hs Hf. unfold closing_orders. by rewrite Hs, Hf. Qed.

(** For every pair that is long spot and short futures, closing issues
    the spot order alone and erases both legs. *)
Lemma close_one_long_short (params : Params) (sym : string) (st : State)
    (spot futures : float) :
  spot_positions st !! sym = Some spot ->
  futures_positions st !! sym = Some futures ->
  PrimFloat.ltb 0 spot = true ->
  PrimFloat.ltb futures 0 = true ->
  close_one params Samples.run_ok sym st
  = (ok tt,
     with_positions (delete sym (spot_positions st))
                    (delete sym (futures_positions st)) st,
     [mkLegOrder (if use_twap params then Twap else Single) sym
        (PrimFloat.abs spot) true false]).
Proof.
  intros Hs Hf Hlong Hshort.
  rewrite (close_one_completes params sym st spot futures Hs Hf).
  - by rewrite closing_orders_short_futures
      by (done || by apply FloatFacts.ltb_asym).
  - rewrite FloatFacts.abs_pos_of_ltb by (by left). done.
Qed.

(** C1 at the failing input: a pair long 0.01 spot and short 0.01
    futures.  [closePositions] issues one order, the spot SELL of 0.01;
    the short futures leg gets no order (under TWAP or not), and both
    entries of the pair are erased all the same. *)
Lemma closePositions_skips_short_leg :
  closePositions default_params Samples.run_ok "BTCUSDT"
    (Samples.pair_state 0.01 (-0.01))
  = (ok tt, mkState [] ∅ ∅ 0 0 0 [],
     [mkLegOrder Twap "BTCUSDT" 0.01 true false]) /\
  closePositions (mkParams 60 false 3 0.02 0.01) Samples.run_ok "BTCUSDT"
    (Samples.pair_state 0.01 (-0.01))
  = (ok tt, mkState [] ∅ ∅ 0 0 0 [],
     [mkLegOrder Single "BTCUSDT" 0.01 true false]).
Proof. split; vm_compute; reflexivity. Qed.

(** *** Drawdown *)

(** The peak is an element of the series. *)
Lemma max_element_from_in (first : float) (rest : list float) :
  max_element_from first rest ∈ first :: rest.
Proof.
  revert first. induction rest as [|x rest IH]; intros first; simpl.
  - left.
  - specialize (IH (if PrimFloat.ltb first x then x else first)).
    apply elem_of_cons in IH as [->|IH].
    + destruct (PrimFloat.ltb first x); [right; left|left].
    + right. by right.
Qed.

(** No element of the series is above the peak. *)
Lemma max_element_from_upper (first : float) (rest : list float) :
  forall x, x ∈ first :: rest ->
    PrimFloat.ltb (max_element_from first rest) x = false.
Proof.
  assert (Hgen : forall rest largest (seen : list float),
            (forall y, y ∈ seen -> PrimFloat.ltb largest y = false) ->
            forall x, x ∈ seen ++ rest ->
              PrimFloat.ltb (max_element_from largest rest) x = false).
  { clear. induction rest as [|x rest IH]; intros largest seen Hseen y Hy.
    - rewrite app_nil_r in Hy. by apply Hseen.
    - simpl. apply (IH _ (seen ++ [x])).
      + intros z Hz. apply elem_of_app in Hz as [Hz|Hz].
        * destruct (PrimFloat.ltb largest x) eqn:Hlt; [|by apply Hseen].
          destruct (PrimFloat.ltb x z) eqn:Hxz; [|done].
          by rewrite <- (Hseen z Hz), (FloatFacts.ltb_trans largest x z).
        * apply list_elem_of_singleton in Hz as ->.
          destruct (PrimFloat.ltb largest x) eqn:Hlt; [|done].
          apply FloatFacts.ltb_irrefl.
      + by rewrite <- app_assoc. }
  intros x Hx. apply (Hgen rest first [first]); [|done].
  intros y Hy. apply list_elem_of_singleton in Hy as ->.
  apply FloatFacts.ltb_irrefl.
Qed.

(** C8, as stated, fails: with a peak that is not positive the current
    drawdown is not reset to 0; it keeps the value it had (here 0.5, for
    the series [-10] and a total PnL of -20). *)
Lemma updateDrawdown_keeps_drawdown_without_peak :
  PrimFloat.leb (max_element_from (-10) []) 0 = true /\
  current_drawdown
    (fst (updateDrawdown default_params
            (Samples.pnl_state [(-10)%float] (-20) 0.5 0.5)))
  = 0.5%float.
Proof. split; vm_compute; reflexivity. Qed.

(** C8, amended: on an empty series [updateDrawdown] changes nothing.  On
    a series with peak [peak] (an element of the series that none of its
    elements exceeds): when [peak > 0] the
    current drawdown becomes [(peak - total_pnl) / peak]; otherwise it
    keeps its previous value.  Then the maximum drawdown becomes the
    larger of its previous value and the current drawdown.  For the
    series 100, 90, 80, 70, 60, 50 and a total PnL of 50 the current
    drawdown is 0.5. *)
Theorem updateDrawdown_spec :
  (forall params st,
     hourly_pnl_history st = [] -> updateDrawdown params st = (st, [])) /\
  (forall params st first rest,
     hourly_pnl_history st = first :: rest ->
     let peak := max_element_from first rest in
     let st' := fst (updateDrawdown params st) in
     peak ∈ hourly_pnl_history st /\
     (forall x, x ∈ hourly_pnl_history st -> PrimFloat.ltb peak x = false) /\
     (PrimFloat.ltb 0 peak = true ->
        current_drawdown st'
        = PrimFloat.div (PrimFloat.sub peak (total_pnl st)) peak) /\
     (PrimFloat.ltb 0 peak = false ->
        current_drawdown st' = current_drawdown st) /\
     (PrimFloat.ltb (max_drawdown st) (current_drawdown st') = true ->
        max_drawdown st' = current_drawdown st') /\
     (PrimFloat.ltb (max_drawdown st) (current_drawdown st') = false ->
        max_drawdown st' = max_drawdown st)) /\
  current_drawdown
    (fst (updateDrawdown default_params
            (Samples.pnl_state [100; 90; 80; 70; 60; 50]%float 50 0 0)))
  = 0.5%float.
Proof.
  split; [|split].
  - intros params st Hempty. unfold updateDrawdown. by rewrite Hempty.
  - intros params st first rest Hseries peak st'.
    subst peak st'. unfold updateDrawdown. rewrite Hseries.
    split; [apply max_element_from_in|].
    split; [apply max_element_from_upper|].
    set (peak := max_element_from first rest).
    destruct (PrimFloat.ltb 0 peak) eqn:Hpeak.
    + set (current := PrimFloat.div _ _).
      destruct (PrimFloat.ltb (max_drawdown st) current) eqn:Hmax; simpl;
        rewrite ?Hmax; repeat split; congruence.
    + destruct (PrimFloat.ltb (max_drawdown st) (current_drawdown st))
        eqn:Hmax; simpl; rewrite ?Hmax; repeat split; congruence.
  - vm_compute. reflexivity.
Qed.

End EngineFacts.

(** * Further properties of the modelled code *)

(** ** The adapter's retry loop, for every closure *)

Module RetryBounds.
Import BinanceApi.

Section Loop.
Context {T : Type}.
Variable cfg : RetryConfig.

(** Whatever the loop returns, it is the outcome of a call after which no
    retry was granted, reached through calls after each of which one
    was. *)
Lemma retry_loop_result (func : nat -> result T) :
  forall (fuel n : nat) (delay_ms : Z) (slept0 : list Z)
         (r : result T) (slept : list Z),
    retry_loop cfg fuel func n delay_ms slept0 = Some (r, slept) ->
    exists k,
      slept = slept0 ++ backoff_delays cfg k delay_ms /\
      r = func (n + k)%nat /\
      (forall i, (i < k)%nat -> retry_granted cfg func (n + i)) /\
      ~ retry_granted cfg func (n + k).
Proof.
  induction fuel as [|fuel IH]; intros n delay_ms slept0 r slept; [done|].
  simpl. destruct (func n) as [e|v] eqn:Hf.
  - destruct (shouldRetry cfg (extractStatusCode (what e)) n) eqn:Hs; simpl.
    + intros Hloop. apply IH in Hloop as (k & -> & -> & Hgo & Hstop).
      exists (S k). rewrite <- app_assoc. simpl.
      replace (n + S k)%nat with (S n + k)%nat by lia.
      split; [reflexivity|]. split; [reflexivity|]. split; [|exact Hstop].
      intros [|i] Hi.
      * rewrite Nat.add_0_r. unfold shouldRetry in Hs.
        destruct (max_retries cfg <=? Z.of_nat n) eqn:Hle; [done|].
        apply bool_decide_eq_true in Hs. apply Z.leb_gt in Hle.
        split; [by exists e|done].
      * replace (n + S i)%nat with (S n + i)%nat by lia. apply Hgo. lia.
    + intros [= <- <-]. exists 0%nat. rewrite Nat.add_0_r, app_nil_r.
      split; [reflexivity|]. split; [by rewrite Hf|].
      split; [intros i Hi; lia|].
      intros [(e' & He' & Hin) Hn]. rewrite Hf in He'. injection He' as <-.
      by rewrite BinanceApiFacts.shouldRetry_true in Hs.
  - intros [= <- <-]. exists 0%nat. rewrite Nat.add_0_r, app_nil_r.
    split; [reflexivity|]. split; [by rewrite Hf|].
    split; [intros i Hi; lia|].
    intros [(e' & He' & _) _]. rewrite Hf in He'. discriminate He'.
Qed.

End Loop.

Lemma next_delay_is_int (cfg : RetryConfig) (delay_ms : Z) :
  is_int (next_delay cfg delay_ms) = true.
Proof.
  unfold next_delay, fits_int, int_of_float.
  destruct (Prim2SF _) as [?|?| |? ? ?]; try reflexivity.
  match goal with
  | |- context [if is_int ?z then _ else _] =>
      destruct (is_int z) eqn:Hfit; [exact Hfit|reflexivity]
  end.
Qed.

Lemma backoff_delays_are_int (cfg : RetryConfig) (k : nat) :
  forall delay_ms,
    is_int delay_ms = true ->
    Forall (fun d => is_int d = true) (backoff_delays cfg k delay_ms).
Proof.
  induction k as [|k IH]; intros d Hd; simpl; constructor; [done|].
  apply IH, next_delay_is_int.
Qed.

(** Where the products fit, each delay is the product of the one before
    it with the multiplier, cut down to its integer part. *)
Lemma backoff_delays_law (cfg : RetryConfig) (k : nat) :
  forall (n : nat) (delay_ms : Z) (i : nat) (a b : Z),
    delays_fit cfg n delay_ms = true -> (k <= n)%nat ->
    backoff_delays cfg k delay_ms !! i = Some a ->
    backoff_delays cfg k delay_ms !! S i = Some b ->
    b = int_of_float
          (PrimFloat.mul (float_of_int a) (backoff_multiplier cfg)).
Proof.
  induction k as [|k IH]; intros n d i a b Hfit Hk; simpl; [done|].
  destruct n as [|n]; [lia|]. simpl in Hfit.
  apply andb_true_iff in Hfit as [Hd Hrest].
  destruct i as [|i]; simpl.
  - intros [= <-]. destruct k as [|k]; simpl; [done|].
    intros [= <-]. unfold next_delay. by rewrite Hd.
  - apply (IH n); [done|lia].
Qed.

(** X1: where the starting delay is an [int] and the products the loop can
    compute all fit an [int], [executeWithRetry] returns: with the outcome
    of the closure's call number [k], after exactly [k] sleeps, where [k]
    is at most [max_retries] (0 if that is negative).  Every earlier call
    failed with a retriable status code; the call number [k] returned a
    value, or failed with another code, or was the last one allowed.  The
    sleeps start at [retry_delay_ms], and each is the one before it times
    [backoff_multiplier], the product taken in [double] and cut down to
    its integer part. *)
Theorem executeWithRetry_bounded {T : Type} (cfg : RetryConfig)
    (func : nat -> result T) :
  is_int (retry_delay_ms cfg) = true ->
  delays_fit cfg (Z.to_nat (max_retries cfg)) (retry_delay_ms cfg) = true ->
  exists (k : nat),
    let delays := backoff_delays cfg k (retry_delay_ms cfg) in
    executeWithRetry cfg func = Some (func k, delays) /\
    (k <= Z.to_nat (max_retries cfg))%nat /\
    (forall i, (i < k)%nat -> retriable_failure cfg (func i)) /\
    ~ retry_granted cfg func k /\
    length delays = k /\
    (forall d0, delays !! 0%nat = Some d0 -> d0 = retry_delay_ms cfg) /\
    (forall i a b, delays !! i = Some a -> delays !! S i = Some b ->
       b = int_of_float
             (PrimFloat.mul (float_of_int a) (backoff_multiplier cfg))) /\
    Forall (fun d => is_int d = true) delays.
Proof.
  intros Hint Hfit.
  destruct (BinanceApiFacts.executeWithRetry_total cfg func)
    as [[r slept] Hrun].
  pose proof Hrun as Hrun'. unfold executeWithRetry in Hrun'.
  apply retry_loop_result in Hrun' as (k & -> & -> & Hgo & Hstop).
  assert (Hk : (k <= Z.to_nat (max_retries cfg))%nat).
  { destruct k as [|k]; [lia|]. destruct (Hgo k ltac:(lia)) as [_ Hk].
    simpl in Hk. lia. }
  exists k. simpl in *. split; [done|]. split; [done|].
  split; [intros i Hi; by destruct (Hgo i Hi)|].
  split; [done|].
  split; [apply BinanceApiFacts.backoff_delays_length|].
  split; [destruct k; simpl; congruence|].
  split; [|by apply backoff_delays_are_int].
  intros i a b. by apply (backoff_delays_law cfg k _ _ i a b Hfit Hk).
Qed.

(** At the default configuration and a closure that always fails with
    "HTTP 429": the delays 1000, 2000, 4000 and 8000 all fit. *)
Lemma executeWithRetry_bounded_witness :
  exists k : nat,
    executeWithRetry default_retry_config Samples.always_429
    = Some (Samples.always_429 k,
            backoff_delays default_retry_config k 1000).
Proof.
  destruct (executeWithRetry_bounded default_retry_config
              Samples.always_429 eq_refl eq_refl) as (k & Hrun & _).
  exists k. exact Hrun.
Defined.

(** X2: A placement that the local order limiter turns down is not retried:
    the rate-limit error surfaces at once, with no sleep, whatever the
    exchange would have answered. *)
Theorem placeOrder_rate_limit_not_retried (mr d : Z) (m : float)
    (ex : Exchange) (request : ExecutionTypes.OrderRequest) :
  ex_order_limiter ex 0%nat = false ->
  placeOrder (loadRetryConfig mr d m) ex request
  = Some (throw (RuntimeError "Order rate limit exceeded"), []).
Proof.
  intros Hdenied.
  assert (Hno : forall n,
            shouldRetry (loadRetryConfig mr d m)
              (extractStatusCode "Order rate limit exceeded") n = false).
  { intros n. unfold shouldRetry. destruct (_ <=? _); [done|].
    apply bool_decide_eq_false. apply (bool_decide_unpack _).
    vm_compute. exact I. }
  unfold placeOrder, executeWithRetry. cbn [retry_loop].
  rewrite Hdenied. cbn [negb throw what]. by rewrite Hno.
Qed.

Lemma placeOrder_rate_limit_not_retried_witness :
  placeOrder default_retry_config Samples.exchange_limited
    Samples.stop_limit_request
  = Some (throw (RuntimeError "Order rate limit exceeded"), []).
Proof.
  exact (placeOrder_rate_limit_not_retried 3 1000 2%float
           Samples.exchange_limited Samples.stop_limit_request eq_refl).
Defined.

End RetryBounds.

(** ** The order index over time *)

Module OrderManagerExtras.
Import ExecutionTypes OrderManager OrderHistory.

Lemma getMarkPrice_total (api : BinanceApi.RetryConfig)
    (ex : BinanceApi.Exchange) (symbol : string) :
  is_Some (BinanceApi.getMarkPrice api ex symbol).
Proof. apply BinanceApiFacts.executeWithRetry_total. Qed.

Lemma api_placeOrder_total (api : BinanceApi.RetryConfig)
    (ex : BinanceApi.Exchange) (request : OrderRequest) :
  is_Some (BinanceApi.placeOrder api ex request).
Proof. apply BinanceApiFacts.executeWithRetry_total. Qed.

(** What a call of [placeOrder] comes to, by cases on its result. *)
Lemma placeOrder_cases (cfg : Config) (api : BinanceApi.RetryConfig)
    (ex : BinanceApi.Exchange) (request : OrderRequest)
    (active_orders : OrderCache) :
  exists r active_orders' sent,
    placeOrder cfg api ex request active_orders
    = Some (r, active_orders', sent) /\
    (length sent <= 1)%nat /\
    match r with
    | inl e =>
        active_orders' = active_orders /\
        (validateOrderRequest request = false ->
           e = InvalidArgument "Invalid order request" /\ sent = [])
    | inr id =>
        validateOrderRequest request = true /\
        exists o,
          active_orders' = <[ id := o ]> active_orders /\
          order_id o = id /\ status o = NEW /\
          symbol o = req_symbol request /\ side o = req_side request /\
          type o = req_type request /\
          original_quantity o = req_quantity request
    end.
Proof.
  unfold placeOrder.
  destruct (validateOrderRequest request) eqn:Hvalid; simpl.
  - destruct (getMarkPrice_total api ex (req_symbol request))
      as [[rp sp] Hprice].
    rewrite Hprice. simpl. destruct rp as [e|mark_price].
    + eexists _, _, _. split; [reflexivity|]. simpl.
      split; [lia|]. split; [done|]. discriminate.
    + set (sent := adjustRequest cfg request _).
      destruct (api_placeOrder_total api ex sent) as [[ro so] Hplace].
      rewrite Hplace. simpl. destruct ro as [e|id].
      * eexists _, _, _. split; [reflexivity|]. simpl.
        split; [lia|]. split; [done|]. discriminate.
      * eexists _, _, _. split; [reflexivity|]. simpl.
        split; [lia|]. split; [done|].
        eexists. split; [reflexivity|]. done.
  - eexists _, _, _. split; [reflexivity|]. simpl.
    split; [lia|]. done.
Qed.


(** A placement or a stream update keeps terminal records out of the
    index. *)
Lemma step_no_terminal (cfg : Config) (api : BinanceApi.RetryConfig)
    (s : Step) (active_orders active_orders' : OrderCache) :
  no_terminal_entry active_orders ->
  step cfg api s active_orders = Some active_orders' ->
  no_terminal_entry active_orders'.
Proof.
  intros Hinv. destruct s as [ex request|update]; simpl.
  - destruct (placeOrder_cases cfg api ex request active_orders)
      as (r & m' & sent & Hrun & _ & Hres).
    rewrite Hrun. simpl. intros [= <-]. destruct r as [e|id].
    + by destruct Hres as [-> _].
    + destruct Hres as (_ & o & -> & _ & Hnew & _).
      intros id' o' Hl.
      apply lookup_insert_Some in Hl as [[_ <-]|[_ Hl]].
      * by rewrite Hnew.
      * by eapply Hinv.
  - intros [= <-]. by apply OrderManagerFacts.updateOrderCache_no_terminal.
Qed.

(** X4: Through any history of placements and stream updates the index holds
    no record with a terminal status (FILLED, CANCELED, REJECTED, EXPIRED),
    and the history never gets stuck. *)
Theorem run_no_terminal (cfg : Config) (api : BinanceApi.RetryConfig)
    (steps : list Step) (active_orders : OrderCache) :
  no_terminal_entry active_orders ->
  exists active_orders',
    run cfg api steps active_orders = Some active_orders' /\
    no_terminal_entry active_orders'.
Proof.
  revert active_orders.
  induction steps as [|s rest IH]; intros m Hinv; simpl.
  - by exists m.
  - assert (Hstep : is_Some (step cfg api s m)).
    { destruct s as [ex request|update]; simpl; [|by eexists].
      destruct (placeOrder_cases cfg api ex request m)
        as (r & m' & sent & Hrun & _).
      rewrite Hrun. by eexists. }
    destruct Hstep as [m' Hstep]. rewrite Hstep. simpl.
    apply IH. by eapply step_no_terminal.
Qed.

(** The theorem on a placement followed by the fill of the order: the
    order enters the index and leaves it. *)
Lemma run_no_terminal_witness :
  exists active_orders',
    run default_config BinanceApi.default_retry_config
      [Place Samples.exchange_ok
         (mkOrderRequest "BTCUSDT" BUY LIMIT 1 50000 0 GTC false false);
       Update (set_status FILLED Samples.new_order)] ∅
    = Some active_orders' /\
    no_terminal_entry active_orders'.
Proof.
  apply (run_no_terminal default_config BinanceApi.default_retry_config).
  intros id o Hl. rewrite lookup_empty in Hl. discriminate Hl.
Defined.

(** X5: [cancelOrder] never adds an id to the index and never removes one,
    and it leaves every record but the cancelled one untouched; it returns
    [true] only if the exchange accepted the cancellation. *)
Theorem cancelOrder_frame (api : BinanceApi.RetryConfig)
    (ex : BinanceApi.Exchange) (symbol orderId : string)
    (active_orders : OrderCache) :
  exists b active_orders',
    cancelOrder api ex symbol orderId active_orders
    = Some (b, active_orders') /\
    dom active_orders' = dom active_orders /\
    (forall id, id <> orderId ->
       active_orders' !! id = active_orders !! id) /\
    (b = false -> active_orders' = active_orders) /\
    (b = true ->
       exists slept,
         BinanceApi.cancelOrder api ex symbol orderId
         = Some (ok true, slept)).
Proof.
  unfold cancelOrder.
  destruct (BinanceApiFacts.executeWithRetry_total api
              (fun n =>
                 do_ BinanceApi.validateSymbol symbol;
                 do_ BinanceApi.ex_cancel_order ex symbol orderId n;
                 ok true)) as [[r s] Hrun].
  unfold BinanceApi.cancelOrder. rewrite Hrun. simpl.
  destruct r as [e|[|]]; eexists _, _; (split; [reflexivity|]).
  - repeat split; try done.
  - destruct (active_orders !! orderId) as [o|] eqn:Hl.
    + split; [|split; [|split]]; try done.
      * rewrite dom_insert_L. apply subseteq_union_1_L.
        apply singleton_subseteq_l. apply elem_of_dom. eauto.
      * intros id Hne. by rewrite lookup_insert_ne.
      * intros _. by exists s.
    + repeat split; try done. intros _. by exists s.
  - repeat split; try done.
Qed.

(** *** Waiting for a fill *)

(** X6: As long as the index holds no terminal record, which placements and
    stream updates guarantee, [waitForOrderFill] never returns [true]: an
    indexed order is not FILLED, and an order that is not indexed makes the
    status query fail. *)
Theorem waitForOrderFill_never_true (mr d : Z) (m : float)
    (caches : nat -> OrderCache) (exs : nat -> BinanceApi.Exchange)
    (elapsed : nat -> Z) (orderId : string) (timeout_ms : Z)
    (fuel : nat) (slept : list Z) :
  (forall n, no_terminal_entry (caches n)) ->
  waitForOrderFill (BinanceApi.loadRetryConfig mr d m) caches exs elapsed
    orderId timeout_ms fuel
  <> Some (true, slept).
Proof.
  intros Hinv. unfold waitForOrderFill.
  generalize (@nil Z) at 1. generalize 0%nat.
  induction fuel as [|fuel IH]; intros n slept0; [done|].
  simpl. unfold getOrderStatus.
  destruct (caches n !! orderId) as [o|] eqn:Hl.
  - simpl. pose proof (Hinv n orderId o Hl) as Hnt.
    unfold status_is.
    destruct (status o); try discriminate Hnt; simpl;
      (destruct (timeout_ms <=? elapsed n); [discriminate | apply IH]).
  - rewrite BinanceApiFacts.getOrderStatus_empty_symbol
      by apply BinanceApiFacts.zero_not_retriable.
    simpl. discriminate.
Qed.

(** The theorem on an order that stays NEW in the index, and on an
    exchange that would report it FILLED. *)
Lemma waitForOrderFill_never_true_witness :
  waitForOrderFill BinanceApi.default_retry_config
    (fun _ => {[ "1" := Samples.new_order ]})
    (fun _ => Samples.exchange_ok) (fun n => 100 * Z.of_nat n) "1" 300 10
  <> Some (true, [100; 100; 100]).
Proof.
  apply (waitForOrderFill_never_true 3 1000 2%float
           (fun _ => {[ "1" := Samples.new_order ]})
           (fun _ => Samples.exchange_ok) (fun n => 100 * Z.of_nat n)
           "1" 300 10 [100; 100; 100]).
  intros n id o Hl. apply lookup_singleton_Some in Hl as [_ <-].
  reflexivity.
Defined.

Lemma getOrderStatus_total (api : BinanceApi.RetryConfig)
    (ex : BinanceApi.Exchange) (symbol orderId : string)
    (active_orders : OrderCache) :
  is_Some (getOrderStatus api ex symbol orderId active_orders).
Proof.
  unfold getOrderStatus. destruct (active_orders !! orderId); [by eexists|].
  apply BinanceApiFacts.executeWithRetry_total.
Qed.

Lemma wait_loop_terminates (api : BinanceApi.RetryConfig)
    (caches : nat -> OrderCache) (exs : nat -> BinanceApi.Exchange)
    (elapsed : nat -> Z) (orderId : string) (timeout_ms : Z) :
  (forall n, 100 * Z.of_nat n <= elapsed n) ->
  forall (fuel n : nat) (slept : list Z),
    (Z.to_nat ((timeout_ms + 99) / 100) - n < fuel)%nat ->
    is_Some (wait_loop api caches exs elapsed orderId timeout_ms fuel n slept).
Proof.
  intros Hclock. induction fuel as [|fuel IH]; intros n slept Hfuel; [lia|].
  simpl.
  destruct (getOrderStatus_total api (exs n) "" orderId (caches n))
    as [[r s] Hq].
  rewrite Hq. simpl. destruct r as [e|info]; [by eexists|].
  destruct (status_is FILLED info); [by eexists|].
  destruct (_ || _); [by eexists|].
  destruct (timeout_ms <=? elapsed n) eqn:Hto; [by eexists|].
  apply IH. apply Z.leb_gt in Hto. specialize (Hclock n).
  assert (Z.of_nat n < (timeout_ms + 99) / 100).
  { pose proof (Z.div_mod (timeout_ms + 99) 100 ltac:(lia)).
    pose proof (Z.mod_pos_bound (timeout_ms + 99) 100 ltac:(lia)). lia. }
  lia.
Qed.

(** X7: [waitForOrderFill] comes back: if the steady clock has advanced by at
    least the 100 ms slept before each poll, the wait is over after at
    most [timeout_ms / 100] (rounded up) sleeps between polls, whatever
    the index and the exchange do meanwhile. *)
Theorem waitForOrderFill_terminates (api : BinanceApi.RetryConfig)
    (caches : nat -> OrderCache) (exs : nat -> BinanceApi.Exchange)
    (elapsed : nat -> Z) (orderId : string) (timeout_ms : Z) (fuel : nat) :
  (forall n, 100 * Z.of_nat n <= elapsed n) ->
  (Z.to_nat ((timeout_ms + 99) / 100) < fuel)%nat ->
  is_Some (waitForOrderFill api caches exs elapsed orderId timeout_ms fuel).
Proof.
  intros Hclock Hfuel. apply wait_loop_terminates; [done|lia].
Qed.

Lemma waitForOrderFill_terminates_witness :
  is_Some
    (waitForOrderFill BinanceApi.default_retry_config
       (fun _ => {[ "1" := Samples.new_order ]})
       (fun _ => Samples.exchange_ok) (fun n => 100 * Z.of_nat n) "1" 300 4).
Proof.
  apply (waitForOrderFill_terminates BinanceApi.default_retry_config).
  - intros n. lia.
  - vm_compute. lia.
Defined.

End OrderManagerExtras.

(** ** The risk manager: approvals, the event log, emergency actions *)

Module RiskManagerExtras.
Import RiskManager RiskLog.

(** X8: An approval means that every check passed: the flag is clear, the
    size does not exceed [max_position_size], the size together with the
    other symbols' positions does not exceed [max_total_positions], and
    the margin, funding, volatility and frequency checks all said yes.
    [checkNewPosition] never approves a position over either limit. *)
Theorem checkNewPosition_approval (h : Helpers) (now : Clock)
    (symbol : string) (size funding_rate : float) (st : State) :
  fst (checkNewPosition h now symbol size funding_rate st) = true ->
  emergency_mode st = false /\
  PrimFloat.ltb (max_position_size (limits st)) size = false /\
  PrimFloat.ltb (max_total_positions (limits st))
    (total_with_others symbol size (position_risks st)) = false /\
  (exists margin,
     calculateRequiredMargin h st symbol size = ok margin /\
     checkMarginRequirements h st symbol margin = ok true) /\
  checkFundingRateExposure h st symbol funding_rate size = ok true /\
  checkVolatility h st symbol = ok true /\
  checkTradingFrequency h st symbol = ok true /\
  snd (checkNewPosition h now symbol size funding_rate st)
  = updateMetrics h st symbol.
Proof.
  unfold checkNewPosition, checkNewPosition_checks, checkPositionLimits.
  destruct (emergency_mode st); [discriminate|].
  destruct (PrimFloat.ltb (max_position_size (limits st)) size);
    [discriminate|].
  destruct (PrimFloat.ltb (max_total_positions (limits st)) _);
    [discriminate|].
  simpl.
  destruct (calculateRequiredMargin h st symbol size) as [e|margin];
    [discriminate|]. simpl.
  destruct (checkMarginRequirements h st symbol margin) as [e|[|]] eqn:Hm;
    try discriminate. simpl.
  destruct (checkFundingRateExposure h st symbol funding_rate size)
    as [e|[|]]; try discriminate. simpl.
  destruct (checkVolatility h st symbol) as [e|[|]]; try discriminate.
  simpl.
  destruct (checkTradingFrequency h st symbol) as [e|[|]];
    try discriminate. simpl.
  intros _. repeat split; try done. by exists margin.
Qed.

Lemma checkNewPosition_approval_witness :
  emergency_mode (Samples.risk_state false) = false /\
  PrimFloat.ltb (max_position_size (limits (Samples.risk_state false)))
    0.01 = false.
Proof.
  destruct (checkNewPosition_approval Samples.lenient_helpers (mkClock 0 0)
              "BTCUSDT" 0.01 0.001 (Samples.risk_state false) eq_refl)
    as (Hflag & Hsize & _).
  exact (conj Hflag Hsize).
Defined.

(** *** The event log *)

(** What [cleanupOldEvents] drops is a prefix of events older than 24
    hours; what it keeps starts with an event that is not. *)
Lemma cleanupOldEvents_split (now : Z) (events : list RiskEvent) :
  exists dropped,
    events = dropped ++ cleanupOldEvents now events /\
    (forall ev, ev ∈ dropped -> 24 * ticks_per_hour < now - ev_time ev) /\
    (forall ev rest, cleanupOldEvents now events = ev :: rest ->
       now - ev_time ev <= 24 * ticks_per_hour).
Proof.
  induction events as [|ev events IH]; simpl.
  - exists []. repeat split; [|done]. intros ev Hev.
    by apply elem_of_nil in Hev.
  - destruct (24 * ticks_per_hour <? now - ev_time ev) eqn:Hold.
    + destruct IH as (dropped & Heq & Hdropped & Hkept).
      exists (ev :: dropped). split; [by rewrite Heq at 1|]. split; [|done].
      intros ev' Hev'. apply elem_of_cons in Hev' as [->|Hev'].
      * by apply Z.ltb_lt.
      * by apply Hdropped.
    + exists []. split; [done|]. split.
      * intros ev' Hev'. by apply elem_of_nil in Hev'.
      * intros ev' rest [= <- _]. by apply Z.ltb_ge.
Qed.

(** X9: recording an event of a type that does not trigger the emergency
    handler, on a log in time order whose events are not later than
    the new event's time stamp.  [cleanupOldEvents] reads the clock anew,
    and it is by that second reading that an event is old or not: every
    event, the new one included, that is at most 24 hours old is in the
    log afterwards; every event in the log afterwards is at most 24
    hours old; the log is still in time order; and the new event is the
    last of the log unless the second reading is more than 24 hours
    after the first, in which case the log is empty. *)
Theorem recordRiskEvent_retention (h : Helpers) (now : Clock)
    (type : RiskEventType) (symbol : string)
    (current_value threshold_value : float) (st : State) :
  shouldTriggerEmergency h type = false ->
  in_time_order (recent_events st) ->
  (forall ev, ev ∈ recent_events st -> ev_time ev <= event_time now) ->
  let event :=
    mkRiskEvent type symbol (event_message type) threshold_value
                current_value (event_time now) in
  let st' :=
    recordRiskEvent h now type symbol current_value threshold_value st in
  (forall ev, ev ∈ recent_events st ++ [event] ->
     cleanup_time now - ev_time ev <= 24 * ticks_per_hour ->
     ev ∈ recent_events st') /\
  (forall ev, ev ∈ recent_events st' ->
     ev ∈ recent_events st ++ [event] /\
     cleanup_time now - ev_time ev <= 24 * ticks_per_hour) /\
  in_time_order (recent_events st') /\
  (cleanup_time now - event_time now <= 24 * ticks_per_hour ->
   last (recent_events st') = Some event) /\
  (24 * ticks_per_hour < cleanup_time now - event_time now ->
   recent_events st' = []).
Proof.
  intros Hno Horder Hpast event st'. subst st'. unfold recordRiskEvent.
  fold event. rewrite Hno. simpl.
  set (log := recent_events st ++ [event]).
  assert (Hlog_order : in_time_order log).
  { intros i j a b Hij Ha Hb. subst log.
    destruct (decide (j < length (recent_events st))%nat) as [Hj|Hj].
    - rewrite lookup_app_l in Ha, Hb by lia. exact (Horder i j a b Hij Ha Hb).
    - rewrite lookup_app_r in Hb by lia.
      destruct (j - length (recent_events st))%nat; [|done].
      injection Hb as <-. simpl.
      destruct (decide (i < length (recent_events st))%nat) as [Hi|Hi].
      + rewrite lookup_app_l in Ha by lia. apply Hpast.
        by eapply list_elem_of_lookup_2.
      + rewrite lookup_app_r in Ha by lia.
        destruct (i - length (recent_events st))%nat; [|done].
        by injection Ha as <-. }
  assert (Hlog_past : forall ev, ev ∈ log -> ev_time ev <= event_time now).
  { intros ev Hev. subst log. apply elem_of_app in Hev as [Hev|Hev].
    - by apply Hpast.
    - apply list_elem_of_singleton in Hev as ->. simpl. lia. }
  destruct (cleanupOldEvents_split (cleanup_time now) log)
    as (dropped & Heq & Hdropped & Hkept).
  set (kept := cleanupOldEvents (cleanup_time now) log) in *.
  assert (Hsuffix_order : in_time_order kept).
  { intros i j a b Hij Ha Hb.
    apply (Hlog_order (length dropped + i)%nat (length dropped + j)%nat);
      [lia| |]; rewrite Heq, lookup_app_r by lia.
    - by replace (length dropped + i - length dropped)%nat with i by lia.
    - by replace (length dropped + j - length dropped)%nat with j by lia. }
  assert (Hrecent : forall ev, ev ∈ log ->
            cleanup_time now - ev_time ev <= 24 * ticks_per_hour ->
            ev ∈ kept).
  { intros ev Hin Hage. rewrite Heq in Hin.
    apply elem_of_app in Hin as [Hin|Hin]; [|done].
    apply Hdropped in Hin. lia. }
  assert (Hlast_log : last log = Some event) by (subst log; apply last_snoc).
  split; [exact Hrecent|]. split; [|split; [exact Hsuffix_order|split]].
  - intros ev Hev. split.
    + rewrite Heq. apply elem_of_app. by right.
    + destruct kept as [|ev0 rest] eqn:Hc; [by apply elem_of_nil in Hev|].
      specialize (Hkept ev0 rest eq_refl).
      apply list_elem_of_lookup in Hev as [j Hj].
      pose proof (Hsuffix_order 0%nat j ev0 ev ltac:(lia) eq_refl Hj). lia.
  - intros Hage.
    assert (Hin : event ∈ kept).
    { apply Hrecent; [|exact Hage].
      subst log. apply elem_of_app. right. by apply list_elem_of_singleton. }
    rewrite Heq in Hlast_log.
    apply last_app_Some in Hlast_log as [Hl|[Hnil _]]; [done|].
    apply last_None in Hnil. rewrite Hnil in Hin.
    by apply elem_of_nil in Hin.
  - intros Hage. destruct kept as [|ev0 rest] eqn:Hc; [done|].
    specialize (Hkept ev0 rest eq_refl).
    assert (Hin : ev0 ∈ log).
    { rewrite Heq. apply elem_of_app. right. apply elem_of_cons. by left. }
    specialize (Hlog_past ev0 Hin). lia.
Qed.

Lemma recordRiskEvent_retention_witness :
  last (recent_events
          (recordRiskEvent Samples.lenient_helpers
             (mkClock (25 * ticks_per_hour) (25 * ticks_per_hour + 1))
             POSITION_LIMIT_BREACH "BTCUSDT" 2 1
             (mkState false (mkRiskLimits 1 3) []
                [mkRiskEvent MARGIN_CALL "ETHUSDT" "" 0 0 0;
                 mkRiskEvent MARGIN_CALL "ETHUSDT" "" 0 0
                   (2 * ticks_per_hour)])))
  = Some (mkRiskEvent POSITION_LIMIT_BREACH "BTCUSDT" "" 1 2
            (25 * ticks_per_hour)).
Proof.
  refine (proj1 (proj2 (proj2 (proj2
            (recordRiskEvent_retention Samples.lenient_helpers
               (mkClock (25 * ticks_per_hour) (25 * ticks_per_hour + 1))
               POSITION_LIMIT_BREACH "BTCUSDT" 2 1 _ eq_refl _ _)))) _).
  - intros [|[|i]] [|[|j]] a b Hij; simpl; intros [= <-] [= <-];
      vm_compute; try discriminate; lia.
  - intros ev Hev. repeat (apply elem_of_cons in Hev as [->|Hev]);
      [vm_compute; discriminate..|by apply elem_of_nil in Hev].
  - vm_compute. discriminate.
Defined.

End RiskManagerExtras.

(** ** Emergency actions *)

Module RiskActionsExtras.
Import ExecutionTypes RiskActions RiskActionFacts.

Lemma halved_leverage (lev : Z) :
  1 < lev ->
  1 <= Z.max 1 (Z.quot lev 2) < lev /\
  (2 <= lev -> Z.max 1 (Z.quot lev 2) = lev / 2).
Proof.
  intros Hlev. rewrite Z.quot_div_nonneg by lia.
  pose proof (Z.div_mod lev 2 ltac:(lia)).
  pose proof (Z.mod_pos_bound lev 2 ltac:(lia)). lia.
Qed.

(** X10: what [executeEmergencyActions] does, call by call.
    - If automatic reduction is on and the reduction size [|size * ratio|]
      is positive, its first call is the order: MARKET, reduce-only, for
      that size, a SELL for a long position and a BUY for a short one;
      otherwise no order is placed.
    - If automatic leverage adjustment is on and the leverage is above 1,
      and no order was due or the order came back, its last call sets the
      leverage to half the leverage (rounded down), which is at least 1
      and below the current leverage; otherwise the leverage is left
      alone, in particular when the order throws.
    - It makes no other call, and it returns [true] exactly when every
      call it made came back. *)
Theorem executeEmergencyActions_calls (settings : RiskControlSettings)
    (place : OrderRequest -> result string)
    (set_leverage : string -> Z -> result bool)
    (symbol : string) (risk : PositionRisk) :
  let out := executeEmergencyActions settings place set_leverage symbol risk in
  let reduction_size :=
    PrimFloat.abs
      (PrimFloat.mul (size risk) (position_reduction_ratio settings)) in
  let request := reduction_request symbol (size risk) reduction_size in
  let reduce :=
    auto_reduce_position settings && PrimFloat.ltb 0 reduction_size in
  let adjust := auto_adjust_leverage settings && (1 <? leverage risk) in
  let new_leverage := Z.max 1 (Z.quot (leverage risk) 2) in
  (reduce = true -> snd out !! 0%nat = Some (CallPlaceOrder request)) /\
  (reduce = false -> forall r, CallPlaceOrder r ∉ snd out) /\
  (adjust = true -> (reduce = true -> is_ok (place request) = true) ->
   last (snd out) = Some (CallSetLeverage symbol new_leverage)) /\
  (adjust = false \/ (reduce = true /\ is_ok (place request) = false) ->
   forall sym n, CallSetLeverage sym n ∉ snd out) /\
  snd out
  = (if reduce then [CallPlaceOrder request] else [])
    ++ (if adjust && (negb reduce || is_ok (place request))
        then [CallSetLeverage symbol new_leverage] else []) /\
  (forall c, c ∈ snd out -> call_allowed settings symbol risk c) /\
  (fst out = true <->
   forall c, c ∈ snd out -> call_returned place set_leverage c = true).
Proof.
  intros out reduction_size request reduce adjust new_leverage.
  assert (Hplace : reduce = true ->
                   call_allowed settings symbol risk (CallPlaceOrder request)).
  { intros Hr. apply andb_true_iff in Hr as [Hon Hpos]. simpl.
    repeat split; try done.
    - intros Hlong. unfold request, reduction_request. by rewrite Hlong.
    - intros Hshort. unfold request, reduction_request. simpl.
      by rewrite (FloatFacts.ltb_asym _ _ Hshort). }
  assert (Hlev : adjust = true ->
                 call_allowed settings symbol risk
                   (CallSetLeverage symbol new_leverage)).
  { intros Hl. apply andb_true_iff in Hl as [Hon Hgt].
    apply Z.ltb_lt in Hgt. simpl.
    destruct (halved_leverage (leverage risk) Hgt). done. }
  assert (Hout : out
            = (if reduce && negb (is_ok (place request))
               then (false, [CallPlaceOrder request])
               else if adjust
                    then (is_ok (set_leverage symbol new_leverage),
                          (if reduce then [CallPlaceOrder request] else [])
                          ++ [CallSetLeverage symbol new_leverage])
                    else (true,
                          if reduce then [CallPlaceOrder request] else []))).
  { subst out. unfold executeEmergencyActions.
    fold reduction_size. fold request. fold reduce. fold adjust.
    fold new_leverage. destruct reduce, (is_ok (place request)); done. }
  rewrite Hout. clear Hout out.
  destruct reduce eqn:Hr, (is_ok (place request)) eqn:Hok,
    adjust eqn:Ha; simpl.
  all: repeat match goal with |- _ /\ _ => split end.
  all: try done.
  all: try (intros [Hx|[Hx Hy]]; try discriminate; intros sym n Hin;
            repeat (apply elem_of_cons in Hin as [Hin|Hin]; [discriminate|]);
            by apply elem_of_nil in Hin).
  all: try (intros _ r Hin;
            repeat (apply elem_of_cons in Hin as [Hin|Hin]; [discriminate|]);
            by apply elem_of_nil in Hin).
  all: try (intros c Hc;
            repeat (apply elem_of_cons in Hc as [->|Hc];
                    [first [exact (Hplace eq_refl) | exact (Hlev eq_refl)]|]);
            by apply elem_of_nil in Hc).
  all: try (intros _ Hgo; by specialize (Hgo eq_refl)).
  all: split.
  all: try (intros Hret c Hc;
            repeat (apply elem_of_cons in Hc as [->|Hc]; [by simpl|]);
            by apply elem_of_nil in Hc).
  all: intros Hall.
  all: try reflexivity.
  all: pose proof (Hall (CallPlaceOrder request)) as H1;
       pose proof (Hall (CallSetLeverage symbol new_leverage)) as H2;
       rewrite !elem_of_cons in H1, H2; simpl in H1, H2.
  all: first [ apply H2; by auto
             | assert (is_ok (place request) = true) by (apply H1; auto);
               congruence ].
Qed.

End RiskActionsExtras.

(** ** The rate limiter *)

Module RateLimiterExtras.
Import RateLimiter.

Lemma one_second_pos : 0 < one_second.
Proof. reflexivity. Qed.

(** What [drop_expired] leaves is a suffix whose front, if any, is at
    most a second old. *)
Lemma drop_expired_split (now : Z) (times : list Z) :
  exists dropped,
    times = dropped ++ drop_expired now times /\
    (forall front rest, drop_expired now times = front :: rest ->
       now - front <= one_second).
Proof.
  induction times as [|t times IH]; simpl.
  - exists []. split; [done|]. discriminate.
  - destruct (one_second <? now - t) eqn:Hold.
    + destruct IH as (dropped & Heq & Hfront).
      exists (t :: dropped). split; [by rewrite Heq at 1|done].
    + exists []. split; [done|]. intros front rest [= <- _].
      by apply Z.ltb_ge.
Qed.

Lemma within_last_second_app (p : Z) (l1 l2 : list Z) :
  within_last_second p (l1 ++ l2)
  = within_last_second p l1 ++ within_last_second p l2.
Proof. apply filter_app. Qed.

Lemma within_last_second_length (p : Z) (l : list Z) :
  (length (within_last_second p l) <= length l)%nat.
Proof. apply length_filter. Qed.

Lemma within_last_second_all (p : Z) (l : list Z) :
  (forall t, t ∈ l -> p - one_second < t) ->
  within_last_second p l = l.
Proof.
  intros Hall. induction l as [|t l IH]; [done|].
  unfold within_last_second in *. rewrite filter_cons_True.
  - f_equal. apply IH. intros t' Ht'. apply Hall. by right.
  - apply Hall. by left.
Qed.

(** X11: One acquisition keeps the limit.  Let the limiter allow
    [requests_per_second >= 1] requests, let its record be in time order
    and satisfy the limit, let the clock read [now], strictly later than
    every recorded acquisition, and let a sleep of [d] end no earlier
    than [now + d].  Then [acquire] returns; it sleeps at most one second; it
    records the acquisition last, at a time that is not before [now]; the
    record is again in time order, and at most [requests_per_second]
    acquisitions lie in the second that ends with the new one. *)
Theorem acquire_keeps_limit (now : Z) (after_sleep : Z -> Z) (st : State) :
  1 <= requests_per_second st < 2 ^ 31 ->
  StronglySorted Z.le (request_times st) ->
  window_ok st ->
  (forall t, t ∈ request_times st -> t < now) ->
  (forall d, 0 < d -> now + d <= after_sleep d) ->
  exists st' slept p,
    acquire now after_sleep st = Some (st', slept) /\
    0 <= slept <= one_second /\
    last (request_times st') = Some p /\ now + slept <= p /\
    requests_per_second st' = requests_per_second st /\
    StronglySorted Z.le (request_times st') /\
    window_ok st'.
Proof.
  intros HN Hsorted Hwin Hpast Hsleep.
  pose proof one_second_pos as Hsec.
  destruct (drop_expired_split now (request_times st))
    as (dropped & Heq & Hfront).
  set (kept := drop_expired now (request_times st)) in *.
  assert (Hkept_in : forall t, t ∈ kept -> t ∈ request_times st).
  { intros t Ht. rewrite Heq. apply elem_of_app. by right. }
  assert (Hkept_sorted : StronglySorted Z.le kept).
  { rewrite Heq in Hsorted. by apply StronglySorted_app_1_r in Hsorted. }
  assert (Hkept_recent : forall t, t ∈ kept -> now - one_second <= t).
  { intros t Ht. destruct kept as [|front rest] eqn:Hk;
      [by apply elem_of_nil in Ht|].
    specialize (Hfront front rest eq_refl).
    apply elem_of_cons in Ht as [->|Ht]; [lia|].
    apply StronglySorted_inv in Hkept_sorted as [_ Hle].
    rewrite Forall_forall in Hle. specialize (Hle t Ht). lia. }
  assert (Hkept_len : Z.of_nat (length kept) <= requests_per_second st).
  { destruct (last (request_times st)) as [p|] eqn:Hlast.
    - specialize (Hwin p Hlast).
      assert (Hp : p < now) by (apply Hpast; by apply last_Some_elem_of).
      rewrite Heq, within_last_second_app, length_app in Hwin.
      rewrite (within_last_second_all p kept) in Hwin; [lia|].
      intros t Ht. specialize (Hkept_recent t Ht). lia.
    - apply last_None in Hlast. rewrite Hlast in Heq.
      symmetry in Heq. apply app_eq_nil in Heq as [_ ->]. simpl. lia. }
  assert (Hsize : as_size_t (requests_per_second st) = requests_per_second st).
  { unfold as_size_t. apply Z.mod_small. lia. }
  (* The record after pushing [p], with [p] not before [now], when the
     window that ends at [p] holds less than the limit among [kept]. *)
  assert (Hpush : forall p,
            now <= p ->
            Z.of_nat (length (within_last_second p kept))
              < requests_per_second st ->
            StronglySorted Z.le (kept ++ [p]) /\
            window_ok (mkState (requests_per_second st) (kept ++ [p]))).
  { intros p Hp Hcount. split.
    - apply StronglySorted_app_2; [|done|by repeat constructor].
      intros t1 t2 Ht1 Ht2. apply list_elem_of_singleton in Ht2 as ->.
      specialize (Hpast t1 (Hkept_in t1 Ht1)). lia.
    - intros p'. simpl. rewrite last_snoc. intros [= <-].
      rewrite within_last_second_app, length_app.
      unfold within_last_second at 2. rewrite filter_cons_True by lia.
      simpl. lia. }
  unfold acquire. fold kept. rewrite Hsize.
  destruct (requests_per_second st <=? Z.of_nat (length kept)) eqn:Hfull.
  - apply Z.leb_le in Hfull.
    destruct kept as [|front rest] eqn:Hk; [simpl in Hfull; lia|].
    specialize (Hfront front rest eq_refl).
    assert (Hfront_past : front < now).
    { apply Hpast, Hkept_in. by left. }
    assert (Hdrop : forall p, front + one_second <= p ->
              Z.of_nat (length (within_last_second p (front :: rest)))
              < requests_per_second st).
    { intros p Hp. unfold within_last_second.
      rewrite filter_cons_False by lia.
      pose proof (within_last_second_length p rest) as Hlen.
      unfold within_last_second in Hlen. simpl in Hkept_len. lia. }
    destruct (0 <? one_second - (now - front)) eqn:Hd.
    + apply Z.ltb_lt in Hd.
      specialize (Hsleep _ Hd).
      set (p := after_sleep (one_second - (now - front))) in *.
      destruct (Hpush p) as [Hs Hw]; [lia|apply Hdrop; lia|].
      eexists _, _, p. split; [reflexivity|].
      cbn [request_times requests_per_second]. rewrite last_snoc. repeat split; try done; lia.
    + apply Z.ltb_ge in Hd.
      destruct (Hpush now) as [Hs Hw]; [lia|apply Hdrop; lia|].
      eexists _, _, now. split; [reflexivity|].
      cbn [request_times requests_per_second]. rewrite last_snoc. repeat split; try done; lia.
  - apply Z.leb_gt in Hfull.
    destruct (Hpush now) as [Hs Hw]; [lia| |].
    { pose proof (within_last_second_length now kept). lia. }
    eexists _, _, now. split; [reflexivity|].
    cbn [request_times requests_per_second]. rewrite last_snoc. repeat split; try done; lia.
Qed.

(** The theorem on a limiter of one request per second that is asked
    again half a second after an acquisition: it sleeps the other half. *)
Lemma acquire_keeps_limit_witness :
  exists st' slept p,
    acquire (ticks_per_second / 2 + 1) (fun d => ticks_per_second / 2 + 1 + d)
      (mkState 1 [1])
    = Some (st', slept) /\
    0 <= slept <= one_second /\
    last (request_times st') = Some p /\
    ticks_per_second / 2 + 1 + slept <= p /\
    requests_per_second st' = 1 /\
    StronglySorted Z.le (request_times st') /\
    window_ok st'.
Proof.
  apply (acquire_keeps_limit (ticks_per_second / 2 + 1)
           (fun d => ticks_per_second / 2 + 1 + d) (mkState 1 [1])).
  - vm_compute. split; [discriminate|reflexivity].
  - repeat constructor.
  - intros p [= <-]. vm_compute. discriminate.
  - intros t Ht. apply list_elem_of_singleton in Ht as ->.
    vm_compute. reflexivity.
  - intros d Hd. lia.
Defined.

(** Without the strict progress of the clock the limit can be broken: a
    limiter of one request per second, asked three times with the clock
    reading 0, then half a second, then (twice the same reading) one
    second, records two acquisitions at the same instant. *)
Lemma acquire_same_reading_breaks_limit :
  exists st1 st2 st3,
    acquire 0 (fun d => 0 + d) (mkState 1 []) = Some (st1, 0) /\
    acquire (one_second / 2) (fun d => one_second / 2 + d) st1
    = Some (st2, one_second / 2) /\
    acquire one_second (fun d => one_second + d) st2 = Some (st3, 0) /\
    request_times st3 = [0; one_second; one_second] /\
    ~ window_ok st3.
Proof.
  eexists _, _, _. split; [vm_compute; reflexivity|].
  split; [vm_compute; reflexivity|].
  split; [vm_compute; reflexivity|].
  split; [vm_compute; reflexivity|].
  intros Hw. specialize (Hw one_second eq_refl). vm_compute in Hw.
  by apply Hw.
Qed.

End RateLimiterExtras.

(** ** The alert manager *)

Module AlertManagerExtras.
Import AlertManager.

Lemma state_eta (st : State) :
  mkState (active_alerts st) (alert_history st) (alert_counts st)
          (last_alert_times st) = st.
Proof. by destruct st. Qed.

(** An alert that is sent stamps its type with the time of recording. *)
Lemma sendAlert_sent (config : AlertConfig) (now : Readings)
    (alert : Alert) (st : State) :
  fst (shouldThrottleAlert config (at_check now) alert st) = false ->
  sendAlert config now alert st
  = (cleanupAlertHistory (at_cleanup now) (at_count now)
       (record_alert (at_record now) alert
          (mkState (active_alerts st) (alert_history st)
             (snd (shouldThrottleAlert config (at_check now) alert st))
             (last_alert_times st))),
     channels config alert).
Proof.
  intros Hsent. unfold sendAlert.
  destruct (shouldThrottleAlert config (at_check now) alert st) as [t c].
  simpl in *. by rewrite Hsent.
Qed.

(** X12: After an alert was sent, an alert of the same type that arrives
    before [alert_interval_seconds] whole seconds have passed is dropped:
    it goes out on no channel and the state, history and active alerts
    included, stays exactly as it was. *)
Theorem sendAlert_throttles_repeat (config : AlertConfig)
    (now1 now2 : Readings) (a1 a2 : Alert) (st : State) :
  type a2 = type a1 ->
  fst (shouldThrottleAlert config (at_check now1) a1 st) = false ->
  duration_cast_seconds (at_check now2 - at_record now1)
    < alert_interval_seconds config ->
  sendAlert config now2 a2 (fst (sendAlert config now1 a1 st))
  = (fst (sendAlert config now1 a1 st), []).
Proof.
  intros Htype Hsent Hsoon. rewrite (sendAlert_sent config now1 a1 st Hsent).
  cbn [fst]. set (st1 := cleanupAlertHistory _ _ _).
  assert (Hlast : last_alert_times st1 !! type a2 = Some (at_record now1)).
  { subst st1. unfold cleanupAlertHistory, record_alert. simpl.
    rewrite Htype. apply lookup_insert_eq. }
  unfold sendAlert, shouldThrottleAlert. rewrite Hlast.
  apply Z.ltb_lt in Hsoon. rewrite Hsoon. by rewrite state_eta.
Qed.

Lemma sendAlert_throttles_repeat_witness :
  sendAlert
    (mkAlertConfig true false false "ops@example.org" "" "" "" 300 100)
    (mkReadings (200 * ticks_per_second) (200 * ticks_per_second)
       (200 * ticks_per_second) (200 * ticks_per_second))
    (mkAlert DRAWDOWN_WARNING CRITICAL "engine"
       "Maximum drawdown exceeded" "" 0.02 0.09 false 0 0)
    (fst (sendAlert
            (mkAlertConfig true false false "ops@example.org" "" "" "" 300
               100)
            (mkReadings 1000 1000 1000 1000)
            (mkAlert DRAWDOWN_WARNING WARNING "engine"
               "Maximum drawdown exceeded" "" 0.02 0.05 false 0 0)
            empty_state))
  = (fst (sendAlert
            (mkAlertConfig true false false "ops@example.org" "" "" "" 300
               100)
            (mkReadings 1000 1000 1000 1000)
            (mkAlert DRAWDOWN_WARNING WARNING "engine"
               "Maximum drawdown exceeded" "" 0.02 0.05 false 0 0)
            empty_state),
     []).
Proof.
  apply sendAlert_throttles_repeat.
  - reflexivity.
  - reflexivity.
  - vm_compute. reflexivity.
Defined.

Lemma count_fold (now : Z) (t : AlertType) (history : list Alert) :
  forall counts : gmap AlertType Z,
    default 0 (foldl (count_step (now - ticks_per_hour)) counts history !! t)
    = default 0 (counts !! t)
      + Z.of_nat (length (recent_of_type now t history)).
Proof.
  induction history as [|a history IH]; intros counts; simpl.
  - unfold recent_of_type. simpl. lia.
  - rewrite IH. unfold recent_of_type, count_step.
    destruct (now - ticks_per_hour <=? time a) eqn:Hrecent.
    + apply Z.leb_le in Hrecent.
      destruct (decide (type a = t)) as [<-|Hne].
      * rewrite lookup_insert_eq, filter_cons_True by done. simpl. lia.
      * rewrite lookup_insert_ne, filter_cons_False by (done || tauto). done.
    + apply Z.leb_gt in Hrecent.
      rewrite filter_cons_False by lia. done.
Qed.

(** X13: After an alert was sent, the history holds, in order, the alerts
    that were there and the new one, less those that are more than 24
    hours old by their own [time] field; and the counter of every type is
    the number of alerts of that type in the history whose [time] is at
    most an hour old.  The increment made when the alert was recorded
    does not survive: an alert whose [time] is older than an hour (or was
    never set) does not count against [max_alerts_per_hour]. *)
Theorem sendAlert_history_and_counts (config : AlertConfig)
    (now : Readings) (alert : Alert) (st : State) :
  fst (shouldThrottleAlert config (at_check now) alert st) = false ->
  let st' := fst (sendAlert config now alert st) in
  alert_history st'
  = keep_one_day (at_cleanup now) (alert_history st ++ [alert]) /\
  (forall a, a ∈ alert_history st' ->
     at_cleanup now - 24 * ticks_per_hour <= time a) /\
  (forall t, getAlertCount t st'
     = Z.of_nat (length (recent_of_type (at_count now) t
                           (alert_history st')))) /\
  (time alert < at_count now - ticks_per_hour ->
     getAlertCount (type alert) st'
     = Z.of_nat (length (recent_of_type (at_count now) (type alert)
                           (keep_one_day (at_cleanup now)
                              (alert_history st))))).
Proof.
  intros Hsent st'. subst st'.
  rewrite (sendAlert_sent config now alert st Hsent). cbn [fst].
  unfold cleanupAlertHistory, record_alert, getAlertCount. simpl.
  split; [done|]. split; [|split].
  - intros a Ha. unfold keep_one_day in Ha.
    apply list_elem_of_filter in Ha as [Ha _]. lia.
  - intros t. unfold updateAlertCounts. rewrite count_fold.
    rewrite lookup_empty. simpl. lia.
  - intros Hold. unfold updateAlertCounts. rewrite count_fold.
    rewrite lookup_empty. simpl. f_equal. f_equal.
    unfold keep_one_day, recent_of_type. rewrite !filter_app.
    rewrite length_app.
    destruct (decide (~ time alert < at_cleanup now - 24 * ticks_per_hour)).
    + rewrite (filter_cons_True _ alert) by done. simpl.
      rewrite filter_cons_False by lia. simpl. lia.
    + rewrite (filter_cons_False _ alert) by done. simpl. lia.
Qed.

Lemma sendAlert_history_and_counts_witness :
  alert_history
    (fst (sendAlert
            (mkAlertConfig true false false "ops@example.org" "" "" "" 300 100)
            (mkReadings 1000 1000 1000 1000)
            (mkAlert DRAWDOWN_WARNING WARNING "engine"
               "Maximum drawdown exceeded" "" 0.02 0.05 false 0 0)
            empty_state))
  = keep_one_day 1000
      (alert_history empty_state
       ++ [mkAlert DRAWDOWN_WARNING WARNING "engine"
             "Maximum drawdown exceeded" "" 0.02 0.05 false 0 0]).
Proof.
  exact (proj1 (sendAlert_history_and_counts
                  (mkAlertConfig true false false "ops@example.org" ""
                     "" "" 300 100)
                  (mkReadings 1000 1000 1000 1000)
                  (mkAlert DRAWDOWN_WARNING WARNING "engine"
                     "Maximum drawdown exceeded" "" 0.02 0.05 false 0 0)
                  empty_state eq_refl)).
Defined.

(** X14: Sending an alert and then resolving it leaves the active alerts as
    they were, less any earlier alert of the same type and source; the
    history keeps the alert.  Resolving what is not active changes
    nothing, so resolving twice is resolving once. *)
Theorem resolveAlert_after_send (config : AlertConfig) (now : Readings)
    (alert : Alert) (st : State) :
  fst (shouldThrottleAlert config (at_check now) alert st) = false ->
  let sent := fst (sendAlert config now alert st) in
  let resolved := resolveAlert (type alert) (source alert) sent in
  active_alerts sent !! (type alert, source alert) = Some alert /\
  active_alerts resolved
  = delete (type alert, source alert) (active_alerts st) /\
  alert_history resolved = alert_history sent /\
  alert_counts resolved = alert_counts sent /\
  resolveAlert (type alert) (source alert) resolved = resolved.
Proof.
  intros Hsent sent resolved. subst resolved sent.
  rewrite (sendAlert_sent config now alert st Hsent). cbn [fst].
  unfold cleanupAlertHistory, record_alert, resolveAlert. simpl.
  rewrite lookup_insert_eq. simpl. rewrite lookup_delete_eq.
  rewrite delete_insert_eq. done.
Qed.

Lemma resolveAlert_after_send_witness :
  active_alerts
    (fst (sendAlert
            (mkAlertConfig true false false "ops@example.org" "" "" "" 300 100)
            (mkReadings 1000 1000 1000 1000)
            (mkAlert DRAWDOWN_WARNING WARNING "engine"
               "Maximum drawdown exceeded" "" 0.02 0.05 false 0 0)
            empty_state))
    !! (DRAWDOWN_WARNING, "engine")
  = Some (mkAlert DRAWDOWN_WARNING WARNING "engine"
            "Maximum drawdown exceeded" "" 0.02 0.05 false 0 0).
Proof.
  exact (proj1 (resolveAlert_after_send
                  (mkAlertConfig true false false "ops@example.org" ""
                     "" "" 300 100)
                  (mkReadings 1000 1000 1000 1000)
                  (mkAlert DRAWDOWN_WARNING WARNING "engine"
                     "Maximum drawdown exceeded" "" 0.02 0.05 false 0 0)
                  empty_state eq_refl)).
Defined.

(** X15: Escalation: an alert of a higher level goes out on every channel an
    alert of a lower level goes out on; an INFO alert goes out on none,
    and a channel without its address or credentials is never used. *)
Theorem channels_escalate (config : AlertConfig) (a1 a2 : Alert) :
  (level_rank (level a1) <= level_rank (level a2) ->
   forall c, c ∈ channels config a1 -> c ∈ channels config a2) /\
  (level a1 = INFO -> channels config a1 = []) /\
  (Email ∈ channels config a1 -> email_recipients config <> "") /\
  (Slack ∈ channels config a1 -> slack_webhook config <> "") /\
  (Telegram ∈ channels config a1 ->
     telegram_bot_token config <> "" /\ telegram_chat_id config <> "").
Proof.
  unfold channels, level_ge.
  destruct (email_enabled config), (slack_enabled config),
    (telegram_enabled config);
    destruct (String.eqb_spec (email_recipients config) ""),
      (String.eqb_spec (slack_webhook config) ""),
      (String.eqb_spec (telegram_bot_token config) ""),
      (String.eqb_spec (telegram_chat_id config) "");
    destruct (level a1), (level a2); simpl;
    repeat split; try done; try (simpl; lia);
    intros; repeat match goal with
    | H : _ ∈ [] |- _ => by apply elem_of_nil in H
    | H : _ ∈ _ :: _ |- _ => apply elem_of_cons in H as [H|H]
    end; try done; subst; rewrite ?elem_of_cons; auto.
Qed.

Lemma channels_escalate_witness :
  Email ∈ channels
    (mkAlertConfig true true false "ops@example.org" "hook" "" "" 300 100)
    (mkAlert DRAWDOWN_WARNING CRITICAL "engine" "" "" 0 0 false 0 0).
Proof.
  apply (proj1 (channels_escalate
                  (mkAlertConfig true true false "ops@example.org" "hook"
                     "" "" 300 100)
                  (mkAlert DRAWDOWN_WARNING WARNING "engine" "" "" 0 0
                     false 0 0)
                  (mkAlert DRAWDOWN_WARNING CRITICAL "engine" "" "" 0 0
                     false 0 0))).
  - vm_compute. discriminate.
  - vm_compute. left.
Defined.

End AlertManagerExtras.

(** ** The websocket client's subscription table *)

Module WebsocketClientExtras.
Import WebsocketClient.

Section Callbacks.
Context {Effect : Type}.

Lemma register_all_lookup (callback : MessageCallback Effect)
    (l : list string) :
  forall (m : Callbacks Effect) (c : string),
    register_all callback l m !! c
    = if decide (c ∈ l) then Some callback else m !! c.
Proof.
  unfold register_all. induction l as [|a l IH]; intros m c; simpl.
  - destruct (decide (c ∈ [])) as [Hin|]; [|done].
    by apply elem_of_nil in Hin.
  - rewrite IH. destruct (decide (c ∈ l)) as [Hin|Hout].
    + rewrite decide_True; [done|]. by apply elem_of_cons; right.
    + destruct (decide (c = a)) as [->|Hne].
      * rewrite lookup_insert_eq. rewrite decide_True; [done|].
        apply elem_of_cons; by left.
      * rewrite lookup_insert_ne by done. rewrite decide_False; [done|].
        intros [?|?]%elem_of_cons; done.
Qed.

Lemma channels_in_order_elem (m : Callbacks Effect) (c : string) :
  c ∈ channels_in_order m <-> is_Some (m !! c).
Proof.
  unfold channels_in_order. rewrite merge_sort_Permutation.
  rewrite list_elem_of_fmap. split.
  - intros [[k v] [-> Hin]]. apply elem_of_map_to_list in Hin. by exists v.
  - intros [v Hv]. exists (c, v). split; [done|].
    by apply elem_of_map_to_list.
Qed.

Lemma channels_in_order_nonempty (m : Callbacks Effect) :
  m <> ∅ -> channels_in_order m <> [].
Proof.
  intros Hne Hnil. apply map_choose in Hne as (c & v & Hc).
  assert (Hin : c ∈ channels_in_order m).
  { apply channels_in_order_elem. by exists v. }
  rewrite Hnil in Hin. by apply elem_of_nil in Hin.
Qed.

(** What [resubscribeAll] leaves of a table that is not empty. *)
Lemma resubscribeAll_cases (env : Env) (callbacks : Callbacks Effect) :
  callbacks <> ∅ ->
  resubscribeAll env callbacks
  = if connected env && limiter_grants env
    then (send_ok env,
          register_all (reuse callbacks) (channels_in_order callbacks) ∅,
          if send_ok env
          then [mkRequest SUBSCRIBE (channels_in_order callbacks)
                  (unix_time env)]
          else [])
    else (false, ∅, []).
Proof.
  intros Hne. unfold resubscribeAll. rewrite decide_False by done.
  pose proof (channels_in_order_nonempty callbacks Hne) as Hl.
  unfold subscribeBatch.
  destruct (channels_in_order callbacks) as [|c l] eqn:Hkeys; [done|].
  destruct (connected env), (limiter_grants env), (send_ok env); done.
Qed.

Lemma resubscribed_lookup (callbacks : Callbacks Effect) (c : string) :
  register_all (reuse callbacks) (channels_in_order callbacks) ∅ !! c
  = match callbacks !! c with
    | Some _ => Some (reuse callbacks)
    | None => None
    end.
Proof.
  rewrite register_all_lookup, lookup_empty.
  destruct (callbacks !! c) as [v|] eqn:Hc.
  - rewrite decide_True; [done|]. apply channels_in_order_elem. by exists v.
  - rewrite decide_False; [done|].
    intros [v Hv]%channels_in_order_elem. congruence.
Qed.

Lemma resubscribed_dom (callbacks : Callbacks Effect) :
  dom (register_all (reuse callbacks) (channels_in_order callbacks) ∅)
  = dom callbacks.
Proof.
  apply set_eq. intros c. rewrite !elem_of_dom, resubscribed_lookup.
  destruct (callbacks !! c); split; intros [? ?]; eauto; done.
Qed.

(** X16: A subscription whose request could not be sent is reported as failed
    and yet stays in the table: messages of the stream still reach the
    callback. *)
Theorem subscribe_failed_send_stays_registered (env : Env)
    (channel : string) (callback : MessageCallback Effect)
    (callbacks : Callbacks Effect) :
  connected env = true -> limiter_grants env = true ->
  send_ok env = false ->
  let o := subscribe env channel callback callbacks in
  returned o = false /\ requests o = [] /\
  table o = <[ channel := callback ]> callbacks /\
  forall data, handleMessage_callback channel data (table o) = callback data.
Proof.
  intros Hc Hl Hs o. subst o. unfold subscribe. rewrite Hc, Hl, Hs. simpl.
  repeat split. intros data. unfold handleMessage_callback, table. simpl.
  by rewrite lookup_insert_eq.
Qed.

(** X17: Subscribing to a channel and then unsubscribing from it, where
    the unsubscription finds the client connected and its request is
    sent, leaves the table as it was less any earlier callback of the
    channel; if the subscription went through as well, a SUBSCRIBE and
    then an UNSUBSCRIBE for that one channel were sent.  A subscription
    that meets a lost connection or a refusing rate limiter leaves table
    and socket untouched. *)
Theorem subscribe_unsubscribe (env1 env2 : Env) (channel : string)
    (callback : MessageCallback Effect) (callbacks : Callbacks Effect) :
  connected env2 = true -> send_ok env2 = true ->
  let o1 := subscribe env1 channel callback callbacks in
  let o2 := unsubscribe env2 channel (table o1) in
  returned o2 = true /\
  table o2 = delete channel callbacks /\
  (returned o1 = true ->
     requests o1 ++ requests o2
     = [mkRequest SUBSCRIBE [channel] (unix_time env1);
        mkRequest UNSUBSCRIBE [channel] (unix_time env2)]) /\
  (connected env1 && limiter_grants env1 = false ->
     o1 = (false, callbacks, [])).
Proof.
  intros Hc Hs o1 o2. subst o2 o1. unfold unsubscribe, subscribe, table.
  rewrite Hc, Hs.
  destruct (connected env1), (limiter_grants env1), (send_ok env1); simpl;
    rewrite ?delete_insert_eq; repeat split; done.
Qed.

(** X18: A resubscription that goes through keeps the set of channels and
    sends one SUBSCRIBE naming each of them; but every channel now has
    the same callback, which looks the payload, not the stream, up among
    the old channels: a message whose payload is not the name of a
    channel reaches no subscriber. *)
Theorem resubscribeAll_rewires_by_payload (env : Env)
    (callbacks : Callbacks Effect) :
  callbacks <> ∅ ->
  connected env = true -> limiter_grants env = true ->
  send_ok env = true ->
  let o := resubscribeAll env callbacks in
  returned o = true /\
  dom (table o) = dom callbacks /\
  (exists r, requests o = [r] /\ method r = SUBSCRIBE /\
     forall c, c ∈ params r <-> is_Some (callbacks !! c)) /\
  (forall stream data, is_Some (callbacks !! stream) ->
     handleMessage_callback stream data (table o)
     = handleMessage_callback data data callbacks) /\
  (forall stream data, callbacks !! data = None ->
     handleMessage_callback stream data (table o) = []).
Proof.
  intros Hne Hc Hl Hs o. subst o.
  rewrite (resubscribeAll_cases env callbacks Hne), Hc, Hl, Hs.
  unfold returned, table, requests. simpl.
  split; [done|]. split; [apply resubscribed_dom|]. split; [|split].
  - eexists. split; [done|]. split; [done|]. simpl.
    apply channels_in_order_elem.
  - intros stream data [v Hv]. unfold handleMessage_callback.
    rewrite resubscribed_lookup, Hv. done.
  - intros stream data Hnone. unfold handleMessage_callback.
    rewrite resubscribed_lookup.
    destruct (callbacks !! stream); [|done]. unfold reuse.
    cbv beta. unfold MessageCallback in *. by rewrite Hnone.
Qed.

(** X19: A resubscription that meets a lost connection or a refusing rate
    limiter reports failure, sends nothing and leaves the table empty;
    the next resubscription then reports success without sending
    anything: the subscriptions are gone. *)
Theorem resubscribeAll_failure_empties_table (env env' : Env)
    (callbacks : Callbacks Effect) :
  callbacks <> ∅ ->
  connected env && limiter_grants env = false ->
  resubscribeAll env callbacks = (false, ∅, []) /\
  resubscribeAll env' (table (resubscribeAll env callbacks))
  = (true, ∅, []).
Proof.
  intros Hne Hfail.
  rewrite (resubscribeAll_cases env callbacks Hne), Hfail. done.
Qed.

Lemma reconnect_loop_stopped (world : nat -> Attempt)
    (remaining attempts : nat) (c : Client Effect) (sent : list Request) :
  running c = false ->
  reconnect_loop remaining attempts world c sent = (false, c, sent).
Proof.
  intros Hstopped. destruct remaining; simpl; [done|]. by rewrite Hstopped.
Qed.

(** X20: [reconnect] never reconnects.  It stops the client thread before
    its loop, which runs only while [running_] is set: so, however many
    attempts are allowed and even if every connection and every
    resubscription would succeed, it makes no attempt, sends no request
    and leaves the table of callbacks as it was.  It never returns
    [true]: it returns [false], or the exception of joining the client
    thread leaves through it; unless a reconnection was already under way
    it leaves [running_] cleared, and [reconnecting_] cleared when it
    returns and set when it throws. *)
Theorem reconnect_never_reconnects (join : result unit)
    (max_reconnect_attempts : Z) (world : nat -> Attempt)
    (c : Client Effect) :
  let out := reconnect join max_reconnect_attempts world c in
  out.1.1 <> ok true /\
  callbacks out.1.2 = callbacks c /\
  out.2 = [] /\
  (reconnecting c = true -> out = (ok false, c, [])) /\
  (reconnecting c = false ->
   running out.1.2 = false /\
   match out.1.1 with
   | inr _ => out.1.1 = ok false /\ reconnecting out.1.2 = false
   | inl e =>
       running c = true /\ join = throw e /\ reconnecting out.1.2 = true
   end).
Proof.
  unfold reconnect, disconnect, stopClientThread.
  destruct (reconnecting c) eqn:Hre; simpl.
  - repeat split; try done.
  - destruct (running c) eqn:Hrun; simpl.
    + destruct join as [e|[]]; simpl.
      * repeat split; try done.
      * rewrite reconnect_loop_stopped by done. simpl.
        repeat split; try done.
    + rewrite reconnect_loop_stopped by done. simpl.
      repeat split; try done.
Qed.

End Callbacks.

Import WebsocketSamples.

Lemma one_stream_non_empty : one_stream <> ∅.
Proof. apply map_non_empty_singleton. Qed.

Lemma subscribe_failed_send_stays_registered_witness :
  returned (subscribe send_fails "btcusdt@markPrice" recorder ∅) = false /\
  handleMessage_callback "btcusdt@markPrice" "{}"
    (table (subscribe send_fails "btcusdt@markPrice" recorder ∅))
  = recorder "{}".
Proof.
  destruct (subscribe_failed_send_stays_registered send_fails
              "btcusdt@markPrice" recorder ∅ eq_refl eq_refl eq_refl)
    as (Hreturned & _ & _ & Hserved).
  split; [exact Hreturned | exact (Hserved "{}")].
Defined.

Lemma subscribe_unsubscribe_witness :
  table (unsubscribe online "btcusdt@markPrice"
           (table (subscribe online "btcusdt@markPrice" recorder
                     one_stream)))
  = delete "btcusdt@markPrice" one_stream.
Proof.
  exact (proj1 (proj2 (subscribe_unsubscribe online online
                         "btcusdt@markPrice" recorder one_stream
                         eq_refl eq_refl))).
Defined.

Lemma resubscribeAll_rewires_by_payload_witness :
  handleMessage_callback "btcusdt@markPrice" "{}"
    (table (resubscribeAll online one_stream))
  = [].
Proof.
  destruct (resubscribeAll_rewires_by_payload online one_stream
              one_stream_non_empty eq_refl eq_refl eq_refl)
    as (_ & _ & _ & _ & Hlost).
  apply Hlost. reflexivity.
Defined.

Lemma resubscribeAll_failure_empties_table_witness :
  resubscribeAll online (table (resubscribeAll limited one_stream))
  = (true, ∅, []).
Proof.
  exact (proj2 (resubscribeAll_failure_empties_table limited online
                  one_stream one_stream_non_empty eq_refl)).
Defined.

(** A running client with one subscription, five attempts allowed, on a
    network where every attempt would succeed: [reconnect] returns
    [false] and leaves the client stopped. *)
Lemma reconnect_on_running_client :
  reconnect (ok tt) 5 always_connects running_client
  = (ok false, mkClient false false one_stream, []).
Proof. reflexivity. Qed.

End WebsocketClientExtras.

(** ** Closing all positions *)

Module EngineExtras.
Import Engine ClosedPositions.

Section ClosingAll.
Variable params : Params.
Variable run : LegOrder -> result unit.
Hypothesis run_completes : forall o, run o = ok tt.

Lemma issue_all (orders : list LegOrder) :
  issue run orders = (ok tt, orders).
Proof using run_completes.
  induction orders as [|o orders IH]; simpl; [done|].
  rewrite run_completes. simpl. by rewrite IH.
Qed.

Lemma closing_orders_selling (sym : string) (spot futures : float) :
  Forall (selling sym) (closing_orders params sym spot futures).
Proof.
  unfold closing_orders, selling.
  destruct (PrimFloat.ltb 0 spot), (PrimFloat.ltb 0 futures); simpl;
    repeat constructor.
Qed.

Lemma map_index_lookup (sym : string) (m : Positions) :
  (map_index sym m).2 !! sym = Some (map_index sym m).1 /\
  forall k, k <> sym -> (map_index sym m).2 !! k = m !! k.
Proof.
  unfold map_index. destruct (m !! sym) as [v|] eqn:Hm; simpl.
  - done.
  - rewrite lookup_insert_eq. split; [done|].
    intros k Hk. by rewrite lookup_insert_ne.
Qed.

Lemma close_one_closes (sym : string) (st : State) :
  let o := close_one params run sym st in
  o.1.1 = ok tt /\ closed o.1.2 sym /\
  (forall k, k <> sym ->
     spot_positions o.1.2 !! k = spot_positions st !! k /\
     futures_positions o.1.2 !! k = futures_positions st !! k) /\
  Forall (selling sym) o.2.
Proof using run_completes.
  unfold close_one.
  pose proof (map_index_lookup sym (spot_positions st)) as [Hs Hs'].
  pose proof (map_index_lookup sym (futures_positions st)) as [Hf Hf'].
  destruct (map_index sym (spot_positions st)) as [sp spot'].
  destruct (map_index sym (futures_positions st)) as [fu futures'].
  simpl in Hs, Hs', Hf, Hf'.
  destruct (PrimFloat.ltb 0 (PrimFloat.abs sp)) eqn:Hsp;
    [|destruct (PrimFloat.ltb 0 (PrimFloat.abs fu)) eqn:Hfu]; simpl.
  1, 2: rewrite issue_all; simpl; split; [done|]; split;
    [left; simpl; by rewrite !lookup_delete_eq|]; split;
    [intros k Hk; rewrite !lookup_delete_ne by done; auto
    |apply closing_orders_selling].
  split; [done|]. split; [right; by exists sp, fu|]. split; [|constructor].
  intros k Hk. auto.
Qed.

Lemma close_each_closes (syms : list string) :
  forall st : State,
    let o := close_each params run syms st in
    o.1.1 = ok tt /\
    (forall k, k ∈ syms -> closed o.1.2 k) /\
    (forall k, k ∉ syms ->
       spot_positions o.1.2 !! k = spot_positions st !! k /\
       futures_positions o.1.2 !! k = futures_positions st !! k) /\
    Forall (fun order => exists sym, sym ∈ syms /\ selling sym order) o.2.
Proof using run_completes.
  induction syms as [|sym syms IH]; intros st; simpl.
  - split; [done|]. split; [intros k Hk; by apply elem_of_nil in Hk|].
    split; [done|constructor].
  - pose proof (close_one_closes sym st) as (Hr & Hclosed & Hframe & Hsell).
    destruct (close_one params run sym st) as [[r st1] tr]. simpl in *.
    subst r. simpl.
    pose proof (IH st1) as (Hr' & Hclosed' & Hframe' & Hsell').
    destruct (close_each params run syms st1) as [[r' st2] tr']. simpl in *.
    split; [done|]. split; [|split].
    + intros k Hk. destruct (decide (k ∈ syms)) as [Hin|Hout]; [auto|].
      apply elem_of_cons in Hk as [->|Hk]; [|done].
      destruct (Hframe' sym Hout) as [Hs Hf].
      unfold closed in *. by rewrite Hs, Hf.
    + intros k Hk. apply not_elem_of_cons in Hk as [Hne Hout].
      destruct (Hframe' k Hout) as [-> ->]. auto.
    + apply Forall_app. split.
      * eapply Forall_impl; [exact Hsell|]. intros o Ho. exists sym.
        split; [apply elem_of_cons; by left|done].
      * eapply Forall_impl; [exact Hsell'|]. intros o (s & Hs & Ho).
        exists s. split; [apply elem_of_cons; by right|done].
Qed.

Lemma close_one_flat (sym : string) (st : State) (v w : float) :
  spot_positions st !! sym = Some v ->
  futures_positions st !! sym = Some w ->
  flat v -> flat w ->
  close_one params run sym st = (ok tt, st, []).
Proof.
  intros Hs Hf Hv Hw. unfold flat in *.
  unfold close_one, map_index. rewrite Hs, Hf, Hv, Hw.
  simpl. by destruct st.
Qed.

Lemma close_each_flat (syms : list string) (st : State) :
  (forall k, k ∈ syms -> exists v w,
     spot_positions st !! k = Some v /\ futures_positions st !! k = Some w /\
     flat v /\ flat w) ->
  close_each params run syms st = (ok tt, st, []).
Proof.
  induction syms as [|sym syms IH]; intros Hflat; simpl; [done|].
  destruct (Hflat sym) as (v & w & Hs & Hf & Hv & Hw);
    [apply elem_of_cons; by left|].
  rewrite (close_one_flat sym st v w Hs Hf Hv Hw). simpl.
  rewrite IH; [done|]. intros k Hk. apply Hflat, elem_of_cons. by right.
Qed.

Lemma keys_in_order_elem (m : Positions) (k : string) :
  k ∈ keys_in_order m <-> is_Some (m !! k).
Proof.
  unfold keys_in_order. rewrite merge_sort_Permutation.
  rewrite list_elem_of_fmap. split.
  - intros [[k' v] [-> Hin]]. apply elem_of_map_to_list in Hin. by exists v.
  - intros [v Hv]. exists (k, v). split; [done|].
    by apply elem_of_map_to_list.
Qed.

(** X22: When every order runs to completion, closing all positions leaves
    no spot entry that counts as a position (what stays is a zero or a
    NaN), sells and never buys, only symbols that had a spot entry, and
    a second closing of all positions issues no order and changes
    nothing. *)
Theorem closePositions_all_settles (st : State) :
  let o := closePositions params run "" st in
  o.1.1 = ok tt /\
  (forall k v, spot_positions o.1.2 !! k = Some v -> flat v) /\
  Forall (fun order =>
            leg_is_buy order = false /\
            is_Some (spot_positions st !! leg_symbol order)) o.2 /\
  closePositions params run "" o.1.2 = (ok tt, o.1.2, []).
Proof using run_completes.
  unfold closePositions. simpl.
  pose proof (close_each_closes (keys_in_order (spot_positions st)) st)
    as (Hr & Hclosed & Hframe & Hsell).
  destruct (close_each params run (keys_in_order (spot_positions st)) st)
    as [[r st'] tr]. simpl in *.
  assert (Hflat : forall k v, spot_positions st' !! k = Some v ->
            exists w, futures_positions st' !! k = Some w /\
              flat v /\ flat w).
  { intros k v Hk.
    destruct (decide (k ∈ keys_in_order (spot_positions st))) as [Hin|Hout].
    - destruct (Hclosed k Hin) as [[Hnone _]|(v' & w & Hs & Hf & Hv & Hw)];
        [congruence|].
      exists w. split; [done|]. split; [congruence|done].
    - destruct (Hframe k Hout) as [Hs _].
      exfalso. apply Hout, keys_in_order_elem. rewrite <- Hs. by exists v. }
  split; [done|]. split; [|split].
  - intros k v Hk. by destruct (Hflat k v Hk) as (w & _ & Hv & _).
  - eapply Forall_impl; [exact Hsell|].
    intros order (sym & Hsym & Hname & Hbuy). split; [done|].
    rewrite Hname. by apply keys_in_order_elem.
  - apply close_each_flat. intros k [v Hk]%keys_in_order_elem.
    destruct (Hflat k v Hk) as (w & Hf & Hv & Hw). by exists v, w.
Qed.

End ClosingAll.

Lemma closePositions_all_settles_witness :
  closePositions default_params Samples.run_ok ""
    (closePositions default_params Samples.run_ok ""
       (Samples.pair_state 0.01 (-0.01))).1.2
  = (ok tt,
     (closePositions default_params Samples.run_ok ""
        (Samples.pair_state 0.01 (-0.01))).1.2,
     []).
Proof.
  exact (proj2 (proj2 (proj2
    (closePositions_all_settles default_params Samples.run_ok
       (fun _ => eq_refl) (Samples.pair_state 0.01 (-0.01)))))).
Defined.

End EngineExtras.

(** ** Configuration lookup *)

Module CommonConfigExtras.
Import CommonConfig.

Lemma getline_tokens_delimiter (a b : string) :
  forall token,
    getline_tokens token (a ++ String "." b)%string
    = getline_tokens token (a ++ ".")%string ++ getline_tokens "" b.
Proof.
  induction a as [|c a IH]; intros token; simpl.
  - done.
  - destruct (Ascii.eqb c "."); [by rewrite IH|apply IH].
Qed.

Lemma getline_tokens_trailing (a : string) :
  forall token,
    (token ++ a)%string <> "" -> ends_with_dot a = false ->
    getline_tokens token (a ++ ".")%string = getline_tokens token a.
Proof.
  induction a as [|c a IH]; intros token Hne Hend.
  - simpl. destruct (String.eqb_spec token ""); [|done].
    subst. by destruct Hne.
  - change (getline_tokens token (String c (a ++ "."))
            = getline_tokens token (String c a)).
    cbn [getline_tokens].
    assert (Hrest : ends_with_dot a = false).
    { destruct a; [done|exact Hend]. }
    destruct (Ascii.eqb_spec c ".") as [->|Hc].
    + f_equal. apply IH; [|done].
      intros H. change (a = "") in H. subst a. done.
    + apply IH; [|done]. by destruct token.
Qed.

Lemma descend_null (tokens : list string) :
  descend tokens nullValue = nullValue.
Proof. by destruct tokens. Qed.

Lemma descend_app (l1 l2 : list string) :
  forall v, descend (l1 ++ l2) v = descend l2 (descend l1 v).
Proof.
  induction l1 as [|t l1 IH]; intros v; simpl; [done|].
  destruct v; try by rewrite descend_null.
  destruct (members !! t); [apply IH|by rewrite descend_null].
Qed.

Lemma tokens_of_path (a b : string) :
  a <> "" -> ends_with_dot a = false ->
  getline_tokens "" (a ++ "." ++ b)%string
  = getline_tokens "" a ++ getline_tokens "" b.
Proof.
  intros Hne Hend.
  change (a ++ "." ++ b)%string with (a ++ String "." b)%string.
  by rewrite getline_tokens_delimiter, getline_tokens_trailing.
Qed.

(** X23: Looking a dotted path up is looking its first part up and then the
    rest from there, whatever dots the two parts have inside: a value
    that is missing, null or not an object on the way gives null in
    both.  With an empty rest: a dot at the end of a key is ignored. *)
Theorem getJsonValue_path (c : Config) (a b : string) :
  a <> "" -> ends_with_dot a = false ->
  getJsonValue c (a ++ "." ++ b)%string
  = getJsonValue (mkConfig (config_path c) (getJsonValue c a)) b /\
  getJsonValue c (a ++ ".")%string = getJsonValue c a.
Proof.
  intros Hne Hend. unfold getJsonValue. split.
  - rewrite tokens_of_path by done. apply descend_app.
  - change (a ++ ".")%string with (a ++ "." ++ "")%string.
    rewrite tokens_of_path by done. simpl. by rewrite app_nil_r.
Qed.

Lemma getJsonValue_path_witness :
  getJsonValue sample_config "monitor.alerts.interval_seconds"
  = getJsonValue
      (mkConfig "config.json" (getJsonValue sample_config "monitor.alerts"))
      "interval_seconds".
Proof.
  exact (proj1 (getJsonValue_path sample_config "monitor.alerts"
                  "interval_seconds" ltac:(discriminate) eq_refl)).
Defined.

(** X24: For a key that is not empty and does not end in a dot: a
    sub-configuration answers a key as its parent answers the key behind
    the prefix, when the temporary file gives back what was written to
    it; and there is a sub-configuration only for a key that leads to an
    object. *)
Theorem getSubConfig_lookup (files : Files) (c sub : Config)
    (key : string) :
  key <> "" -> ends_with_dot key = false ->
  read_back files (getJsonValue c key) = Some (getJsonValue c key) ->
  getSubConfig files c key = ok (Some sub) ->
  isObject (getJsonValue c key) = true /\
  config_path sub = (config_path c ++ "." ++ key ++ ".tmp")%string /\
  forall k,
    getJsonValue sub k = getJsonValue c (key ++ "." ++ k)%string /\
    hasKey sub k = hasKey c (key ++ "." ++ k)%string.
Proof.
  intros Hne Hend Hback. unfold getSubConfig.
  destruct (isNull (getJsonValue c key)) eqn:Hnull; [discriminate|].
  destruct (isObject (getJsonValue c key)) eqn:Hobj; [|discriminate].
  simpl. destruct (temp_opens files); [|discriminate]. simpl.
  rewrite Hback. intros [= <-]. split; [done|]. split; [done|].
  intros k. unfold hasKey, getJsonValue. simpl.
  rewrite tokens_of_path by done. by rewrite descend_app.
Qed.

Lemma getSubConfig_lookup_witness :
  getJsonValue
    (mkConfig "config.json.monitor.alerts.tmp"
       (getJsonValue sample_config "monitor.alerts"))
    "interval_seconds"
  = getJsonValue sample_config "monitor.alerts.interval_seconds".
Proof.
  exact (proj1 (proj2 (proj2
    (getSubConfig_lookup faithful_files sample_config
       (mkConfig "config.json.monitor.alerts.tmp"
          (getJsonValue sample_config "monitor.alerts"))
       "monitor.alerts" ltac:(discriminate) eq_refl eq_refl eq_refl))
    "interval_seconds")).
Defined.

End CommonConfigExtras.

(** ** The monitor's health check and alerts *)

Module MonitorServiceExtras.
Import MonitorService.

Lemma symbol_alerts_no_thresholds (symbol : string)
    (metrics : MonitorMetrics) :
  symbol_alerts ∅ symbol metrics = [].
Proof. unfold symbol_alerts. by rewrite !lookup_empty. Qed.

Lemma flat_map_nil {A B : Type} (f : A -> list B) (l : list A) :
  (forall a, f a = []) -> flat_map f l = [].
Proof.
  intros Hf. induction l as [|a l IH]; simpl; [done|]. by rewrite Hf, IH.
Qed.

(** X25: A system that [calculateSystemHealth] finds healthy draws no alert
    with the source "System" from [checkThresholds], and no alert at all
    while no threshold has been set for the symbols.  The converse does
    not hold: with the memory use exactly at its threshold the system
    is not healthy, and no memory alert is raised either. *)
Theorem healthy_raises_no_system_alert
    (metrics : gmap string MonitorMetrics)
    (alert_thresholds : gmap string float) (status : SystemStatus)
    (config : MonitorConfig) :
  (calculateSystemHealth status config = true ->
   system_alerts status config = [] /\
   checkThresholds metrics ∅ status config = []) /\
  (memory_usage status = memory_threshold config ->
   calculateSystemHealth status config = false /\
   forall a, a ∈ checkThresholds metrics alert_thresholds status config ->
     alert_text a <> "Memory usage exceeded threshold: ").
Proof.
  split.
  - unfold calculateSystemHealth. intros H.
    apply andb_prop in H as [H Herr]. apply andb_prop in H as [H Hcpu].
    apply andb_prop in H as [_ Hmem].
    assert (system_alerts status config = []) as Hnone.
    { unfold system_alerts.
      by rewrite (FloatFacts.ltb_asym _ _ Hmem),
        (FloatFacts.ltb_asym _ _ Hcpu), (FloatFacts.ltb_asym _ _ Herr). }
    split; [done|]. unfold checkThresholds. rewrite Hnone, app_nil_r.
    apply flat_map_nil. intros [symbol m].
    apply symbol_alerts_no_thresholds.
  - intros Heq. split.
    + unfold calculateSystemHealth.
      rewrite Heq, FloatFacts.ltb_irrefl. by rewrite !andb_false_r.
    + intros a Ha. unfold checkThresholds in Ha.
      apply elem_of_app in Ha as [Ha|Ha].
      * apply list_elem_of_In, in_flat_map in Ha as ([symbol m] & _ & Ha).
        apply list_elem_of_In in Ha. unfold symbol_alerts in Ha.
        repeat match type of Ha with
        | _ ∈ _ ++ _ => apply elem_of_app in Ha as [Ha|Ha]
        end;
        repeat match type of Ha with
        | context [match ?x with _ => _ end] => destruct x
        end;
        try (by apply elem_of_nil in Ha);
        apply list_elem_of_singleton in Ha; by subst a.
      * unfold system_alerts in Ha.
        rewrite Heq, FloatFacts.ltb_irrefl in Ha. simpl in Ha.
        apply elem_of_app in Ha as [Ha|Ha];
        repeat match type of Ha with
        | context [if ?x then _ else _] => destruct x
        end;
        try (by apply elem_of_nil in Ha);
        apply list_elem_of_singleton in Ha; by subst a.
Qed.

Lemma healthy_raises_no_system_alert_witness :
  checkThresholds ∅ ∅ sample_status sample_config = [].
Proof.
  exact (proj2 (proj1 (healthy_raises_no_system_alert ∅ ∅ sample_status
                         sample_config) eq_refl)).
Defined.

End MonitorServiceExtras.
